(** * ca2a: the item parser and the call dispatcher of the A2A command-line client

    A shallow embedding of [src/ca2a.py].

    - Python [str] is modelled as [string]; a character is an [ascii].
    - [re.compile(...).match] is modelled by a backtracking matcher over the
      fragment of regular expressions that [PATTERN] uses.  The matcher
      enumerates the successful ways of matching in the order in which the
      [re] engine tries them (alternatives left to right, greedy repetition
      longest first); [re_match] takes the first one.
    - [dict] is modelled as [gmap]; the assignment [d[k] = v] is [<[k:=v]> d].
    - An exception is an outcome of the [result] type.
    - The libraries that the program calls ([json.loads], [repr], the a2a
      client and its constructor, pydantic, pygments) are parameters, with
      the exceptions they may raise: the theorems hold for every behaviour
      of them.
    - The actions of the dispatcher on the outside world are recorded, in
      order, in a trace of events. *)

From Stdlib Require Import Ascii String ZArith.
From stdpp Require Import base tactics option list strings gmap fin_maps.

Set Warnings "-register-all".

Local Open Scope string_scope.
Local Open Scope list_scope.

(** ** Outcomes of a Python call: a value, or a raised exception *)

(** [ValueError msg] stands for every exception that [except ValueError]
    catches, with [msg] its [str]; [OtherError] for an exception that is
    neither a [ValueError] nor a [SystemExit] ([RecursionError], a failure
    of the network, ...). *)
Inductive exn : Type :=
| ValueError (msg : string)
| SystemExit (status : Z) (msg : string)
| OtherError (name msg : string).

Inductive result (A : Type) : Type :=
| Ok (a : A)
| Raise (e : exn).
Arguments Ok {A} a.
Arguments Raise {A} e.

Global Instance result_ret : MRet result := fun _ a => Ok a.
Global Instance result_bind : MBind result := fun _ _ f m =>
  match m with
  | Ok a => f a
  | Raise e => Raise e
  end.

(** ** Regular expressions: the fragment used by [PATTERN] *)

Module Re.

Inductive regex : Type :=
| Bol                            (* [^] *)
| Eol                            (* [$], without [re.MULTILINE] *)
| Lit (s : string)               (* literal text *)
| PlusSet (p : ascii -> bool)    (* [[...]+] or [.+]: greedy, one or more *)
| Alt (r1 r2 : regex)            (* [r1|r2] *)
| Seq (r1 r2 : regex)            (* [r1r2] *)
| Group (r : regex).             (* [(r)]; groups are not nested, so they
                                    close in the order of their numbers *)

(** The state of a match attempt: the position in the subject, the text
    that is left, and the texts of the groups closed so far. *)
Record mstate : Type := MState {
  m_pos : nat;
  m_rest : string;
  m_groups : list string
}.

(** [prefix_rest s t] is the rest of [t] after the prefix [s], if any. *)
Fixpoint prefix_rest (s t : string) : option string :=
  match s, t with
  | EmptyString, _ => Some t
  | String a s', String b t' =>
      if Ascii.eqb a b then prefix_rest s' t' else None
  | String _ _, EmptyString => None
  end.

(** All the ways of taking one or more characters of the set [p] from the
    front of [s], the longest first: pairs of the text taken and the rest. *)
Fixpoint plus_set (p : ascii -> bool) (s : string) : list (string * string) :=
  match s with
  | EmptyString => []
  | String c s' =>
      if p c
      then map (fun '(x, r) => (String c x, r)) (plus_set p s')
             ++ [(String c EmptyString, s')]
      else []
  end.

(** [$] matches at the end of the subject and just before a newline that
    ends the subject. *)
Definition at_eol (s : string) : bool :=
  match s with
  | EmptyString => true
  | String c EmptyString => Ascii.eqb c "010"
  | _ => false
  end.

Definition advance (st : mstate) (x r : string) : mstate :=
  MState (m_pos st + String.length x) r (m_groups st).

Definition close_group (x : string) (st : mstate) : mstate :=
  MState (m_pos st) (m_rest st) (m_groups st ++ [x]).

(** [run r st]: the successful matches of [r] from [st], in the order in
    which a backtracking engine finds them; each with the text matched. *)
Fixpoint run (r : regex) (st : mstate) : list (string * mstate) :=
  match r with
  | Bol => if Nat.eqb (m_pos st) 0 then [(EmptyString, st)] else []
  | Eol => if at_eol (m_rest st) then [(EmptyString, st)] else []
  | Lit s =>
      match prefix_rest s (m_rest st) with
      | Some rest => [(s, advance st s rest)]
      | None => []
      end
  | PlusSet p =>
      map (fun '(x, rest) => (x, advance st x rest)) (plus_set p (m_rest st))
  | Alt r1 r2 => run r1 st ++ run r2 st
  | Seq r1 r2 =>
      flat_map (fun '(x1, st1) =>
                  map (fun '(x2, st2) => (x1 +:+ x2, st2)) (run r2 st1))
               (run r1 st)
  | Group r' =>
      map (fun '(x, st') => (x, close_group x st')) (run r' st)
  end.

(** [re.match]: anchored at position 0; the first success, if any.  The
    result is what [Match.groups()] returns. *)
Definition re_match (r : regex) (s : string) : option (list string) :=
  match run r (MState 0 s []) with
  | [] => None
  | (_, st) :: _ => Some (m_groups st)
  end.

End Re.

(** ** The pattern of an item *)

(** The characters the key may not contain: [[^:=]]. *)
Definition not_colon_eq (c : ascii) : bool :=
  negb (Ascii.eqb c ":" || Ascii.eqb c "=").

(** [.] under [re.DOTALL] matches every character. *)
Definition dot_all (c : ascii) : bool := true.

(** [PATTERN = re.compile(r"^([^:=]+)(=|:=|:)(.+)$", re.DOTALL)] *)
Definition PATTERN : Re.regex :=
  Re.Seq Re.Bol
    (Re.Seq (Re.Group (Re.PlusSet not_colon_eq))
       (Re.Seq (Re.Group (Re.Alt (Re.Lit "=") (Re.Alt (Re.Lit ":=") (Re.Lit ":"))))
          (Re.Seq (Re.Group (Re.PlusSet dot_all)) Re.Eol))).


(** *** A direct scanner for the same language

    It is not part of the program: the matcher facts below prove that
    [PATTERN] and the scanner agree, and the theorems about [parse] reason
    with the scanner.  The key is the longest prefix without [:] and [=];
    what follows it decides the separator. *)
Fixpoint span (p : ascii -> bool) (s : string) : string * string :=
  match s with
  | EmptyString => (EmptyString, EmptyString)
  | String c s' =>
      if p c
      then let '(k, r) := span p s' in (String c k, r)
      else (EmptyString, s)
  end.

Definition is_empty (s : string) : bool :=
  match s with EmptyString => true | _ => false end.

Definition split_item (s : string) : option (list string) :=
  let '(k, r) := span not_colon_eq s in
  if is_empty k then None
  else
    match r with
    | String "=" v => if is_empty v then None else Some [k; "="; v]
    | String ":" (String "=" v) =>
        if is_empty v then Some [k; ":"; "="] else Some [k; ":="; v]
    | String ":" v => if is_empty v then None else Some [k; ":"; v]
    | _ => None
    end.

Fixpoint string_forall (p : ascii -> bool) (s : string) : bool :=
  match s with
  | EmptyString => true
  | String c s' => p c && string_forall p s'
  end.

(** The groups of the first success in a list of successes. *)
Definition first_groups (l : list (string * Re.mstate)) : option (list string) :=
  match l with
  | [] => None
  | (_, st) :: _ => Some (Re.m_groups st)
  end.

(** The value and the end of the subject: [(.+)$]. *)
Definition VALUE_EOL : Re.regex :=
  Re.Seq (Re.Group (Re.PlusSet dot_all)) Re.Eol.

(** The separator and what follows it: [(=|:=|:)(.+)$]. *)
Definition SEP_VALUE_EOL : Re.regex :=
  Re.Seq (Re.Group (Re.Alt (Re.Lit "=") (Re.Alt (Re.Lit ":=") (Re.Lit ":"))))
    VALUE_EOL.

(** ** [parse_items] *)

(** The values of [json.loads]; a string parameter is a [JStr].  A float is
    kept as the text of its literal. *)
Inductive json : Type :=
| JNull
| JBool (b : bool)
| JInt (n : Z)
| JFloat (literal : string)
| JStr (s : string)
| JList (items : list json)
| JDict (fields : list (string * json)).

(** What a call of [json.loads] does: it returns a value, it raises
    [json.JSONDecodeError], or it raises another exception, one that
    [except json.JSONDecodeError] does not catch ([RecursionError] on a
    deeply nested text, the [ValueError] of the limit on the digits of an
    integer). *)
Inductive loads_result : Type :=
| Loaded (v : json)
| JSONDecodeError
| LoadsRaises (e : exn).

(** The two dictionaries that the closure [parse] updates. *)
Record maps : Type := Maps {
  params : gmap string json;
  headers : gmap string string
}.

(** [key, separator, value = match.groups()]: a tuple of another length
    cannot be unpacked. *)
Definition unpack3 (gs : list string) : result (string * string * string) :=
  match gs with
  | [a; b; c] => Ok (a, b, c)
  | _ :: _ :: _ :: _ :: _ => Raise (ValueError "too many values to unpack")
  | _ => Raise (ValueError "not enough values to unpack")
  end.

Section Parser.

(** [json.loads]. *)
Variable json_loads : string -> loads_result.
(** [repr] of a string, as the [!r] conversion of an f-string applies it. *)
Variable repr : string -> string.

Definition parse (item : string) (st : maps) : result maps :=
  match Re.re_match PATTERN item with
  | None => Raise (ValueError ("Invalid item: " +:+ repr item))
  | Some groups =>
      '(key, separator, value) ← unpack3 groups;
      if String.eqb separator "=" then
        Ok (Maps (<[key := JStr value]> (params st)) (headers st))
      else if String.eqb separator ":=" then
        match json_loads value with
        | Loaded parsed_value =>
            Ok (Maps (<[key := parsed_value]> (params st)) (headers st))
        | JSONDecodeError =>
            Raise (ValueError ("Invalid JSON value: " +:+ repr value))
        | LoadsRaises e => Raise e
        end
      else if String.eqb separator ":" then
        Ok (Maps (params st) (<[key := value]> (headers st)))
      else Raise (ValueError ("Unsupported separator: " +:+ repr separator))
  end.

(** [for item in items: parse(item)] *)
Fixpoint parse_all (items : list string) (st : maps) : result maps :=
  match items with
  | [] => Ok st
  | item :: items' => st' ← parse item st; parse_all items' st'
  end.

Definition parse_items (items : list string)
  : result (gmap string json * gmap string string) :=
  st ← parse_all items (Maps ∅ ∅);
  Ok (params st, headers st).

(** The item [item] assigns [v] to the parameter [k], and nothing else;
    likewise for a header. *)
Definition sets_param (item k : string) (v : json) : Prop :=
  parse item (Maps ∅ ∅) = Ok (Maps {[k := v]} ∅).

Definition sets_header (item k v : string) : Prop :=
  parse item (Maps ∅ ∅) = Ok (Maps ∅ {[k := v]}).

End Parser.

(** The bindings of the key [k] in a dictionary. *)
Definition bindings_of {V} (k : string) (m : gmap string V)
  : list (string * V) :=
  filter (fun kv => kv.1 = k) (map_to_list m).

(** What one accepted item contributes: a parameter or a header. *)
Inductive entry : Type :=
| Param (k : string) (v : json)
| Header (k v : string).

Definition store (e : entry) (st : maps) : maps :=
  match e with
  | Param k v => Maps (<[k := v]> (params st)) (headers st)
  | Header k v => Maps (params st) (<[k := v]> (headers st))
  end.

(** A key of the grammar: one or more characters, none of them [:] or [=]. *)
Definition is_key (k : string) : bool :=
  negb (is_empty k) && string_forall not_colon_eq k.

(** The first character of [s] is in the set [p]. *)
Definition starts_with_set (p : ascii -> bool) (s : string) : bool :=
  match s with
  | String d _ => p d
  | EmptyString => false
  end.

(** The first character of [s] is [c]. *)
Definition starts_with (c : ascii) (s : string) : bool :=
  match s with
  | String d _ => Ascii.eqb c d
  | EmptyString => false
  end.

(** ** The dispatcher *)

(** A computation that acts on the outside world: the actions it performed,
    in order, and how it ended. *)
Record M (E A : Type) : Type := Run {
  trace : list E;
  outcome : result A
}.
Arguments Run {E A} trace outcome.
Arguments trace {E A} m.
Arguments outcome {E A} m.

Global Instance M_ret {E} : MRet (M E) := fun _ a => Run [] (Ok a).
Global Instance M_bind {E} : MBind (M E) := fun _ _ f m =>
  match outcome m with
  | Ok a => let m' := f a in Run (trace m ++ trace m') (outcome m')
  | Raise e => Run (trace m) (Raise e)
  end.

Definition emit {E} (e : E) : M E unit := Run [e] (Ok tt).
Definition raise {E A} (e : exn) : M E A := Run [] (Raise e).
Definition lift {E A} (r : result A) : M E A := Run [] r.

Definition METHODS : list string := ["message/send"; "message/stream"].

Record Client : Type := MkClient {
  url : string;
  method : string;
  client_params : gmap string json;
  client_headers : gmap string string
}.

(** [argparse.Namespace], as [parser.parse_args()] returns it. *)
Record Namespace : Type := MkNamespace {
  arg_url : string;
  arg_method : string;
  arg_items : list string;
  arg_verbose : bool
}.

Section Dispatcher.

(** The types of [a2a.types], as far as the program looks into them. *)
Variable MessageSendParams : Type.
Variable Payload : Type.     (* a result or an error carried by a response *)
Variable Unknown : Type.     (* a response root of no class that is matched *)

Inductive request : Type :=
| SendMessageRequest (id : string) (params : MessageSendParams)
| SendStreamingMessageRequest (id : string) (params : MessageSendParams).

(** [resp.root] of a [JSONRPCResponse]. *)
Inductive root : Type :=
| JSONRPCErrorResponse (error : Payload)
| SendMessageSuccessResponse (result : Payload)
| SendStreamingMessageSuccessResponse (result : Payload)
| UnknownResponse (u : Unknown).

(** What an asynchronous iterator delivers: chunks, then the end of the
    stream or an exception. *)
Record stream : Type := Stream {
  chunks : list root;
  failure : option exn
}.

(** What [show_response] receives: one response, or an iterator. *)
Inductive response : Type :=
| Single (r : root)
| AsyncIterator (s : stream).

(** The objects handed to [print_json]. *)
Inductive base_model : Type :=
| OfRequest (r : request)
| OfResponse (r : root)
| OfPayload (p : Payload).

(** The actions on the outside world. *)
Inductive event : Type :=
| EvOpenHttpClient (headers : option (gmap string string))
| EvCloseHttpClient
| EvSendMessage (r : request)
| EvSendMessageStreaming (r : request)
| EvChunk (c : root)
| EvPrint (text : string).

(** The libraries and the outside world of one run. *)
Record env : Type := Env {
  A2AClient : string -> result unit;       (* A2AClient(httpx_client, url=url) *)
  model_validate : gmap string json -> result MessageSendParams;
  uuid4 : string;
  send_message : request -> result root;
  send_message_streaming : request -> stream;
  model_dump_json : base_model -> string;  (* indent=2, exclude_none=True *)
  root_dump_json : root -> string;         (* exclude_none=True *)
  isatty : bool;                           (* sys.stdout.isatty() *)
  highlight : string -> string
}.

Variable w : env.

Definition print (text : string) : M event unit := emit (EvPrint text).

Definition is_async_iterator (obj : response) : bool :=
  match obj with
  | Single _ => false
  | AsyncIterator _ => true
  end.

Definition print_json (result : base_model) : M event unit :=
  let json_str := model_dump_json w result in
  if negb (isatty w) then print json_str
  else print (highlight w json_str).

Definition show_request (request : request) (verbose : bool) : M event unit :=
  if verbose then print "Request:";; print_json (OfRequest request)
  else mret tt.

Definition get_result (resp : root) : M event Payload :=
  match resp with
  | JSONRPCErrorResponse error => mret error
  | SendMessageSuccessResponse result => mret result
  | SendStreamingMessageSuccessResponse result => mret result
  | UnknownResponse _ =>
      raise (ValueError ("Unsupported A2A response: " +:+ root_dump_json w resp))
  end.

(** [async for chunk in response: body(chunk)] *)
Fixpoint async_for (cs : list root) (fin : option exn)
    (body : root -> M event unit) : M event unit :=
  match cs with
  | [] => match fin with None => mret tt | Some e => raise e end
  | chunk :: cs' => emit (EvChunk chunk);; body chunk;; async_for cs' fin body
  end.

(** [response] is one of two things, and [is_async_iterator] tells which:
    in the branch of an iterator it is read as a stream, in the other one
    as a single response.  The remaining cases of the inner matches cannot
    be reached. *)
Definition show_response (response : response) (verbose : bool)
  : M event unit :=
  if verbose then
    print "Response:";;
    if is_async_iterator response then
      match response with
      | AsyncIterator s =>
          async_for (chunks s) (failure s)
            (fun chunk => print_json (OfResponse chunk))
      | Single _ => mret tt
      end
    else
      match response with
      | Single r => print_json (OfResponse r)
      | AsyncIterator _ => mret tt
      end
  else
    if is_async_iterator response then
      match response with
      | AsyncIterator s =>
          async_for (chunks s) (failure s)
            (fun chunk => result ← get_result chunk; print_json (OfPayload result))
      | Single _ => mret tt
      end
    else
      match response with
      | Single r => result ← get_result r; print_json (OfPayload result)
      | AsyncIterator _ => mret tt
      end.

Definition invoke (self : Client) (verbose : bool) : M event unit :=
  emit (EvOpenHttpClient
          (if decide (client_headers self = ∅) then None
           else Some (client_headers self)));;
  lift (A2AClient w (url self));;
  if String.eqb (method self) "message/send" then
    params ← lift (model_validate w (client_params self));
    let request := SendMessageRequest (uuid4 w) params in
    show_request request verbose;;
    emit (EvSendMessage request);;
    response ← lift (send_message w request);
    show_response (Single response) verbose
  else if String.eqb (method self) "message/stream" then
    params ← lift (model_validate w (client_params self));
    let request := SendStreamingMessageRequest (uuid4 w) params in
    show_request request verbose;;
    emit (EvSendMessageStreaming request);;
    let response := send_message_streaming w request in
    show_response (AsyncIterator response) verbose
  else raise (ValueError ("Unsupported method: " +:+ method self)).

(** [parser.error(message)]: the message goes to the diagnostic stream and
    the process exits with status 2. *)
Definition parser_error {A} (message : string) : M event A :=
  raise (SystemExit 2 message).

Variable json_loads : string -> loads_result.
Variable repr : string -> string.

(** [main], from the parsed command line on. *)
Definition main (args : Namespace) : M event unit :=
  (if negb (existsb (String.eqb (arg_method args)) METHODS) then
     parser_error ("Invalid method: " +:+ arg_method args +:+ " (choose from "
                   +:+ String.concat ", " METHODS +:+ ").")
   else mret tt);;
  '(params, headers) ←
    match parse_items json_loads repr (arg_items args) with
    | Raise (ValueError msg) => parser_error msg
    | r => lift r
    end;
  let client := MkClient (arg_url args) (arg_method args) params headers in
  invoke client (arg_verbose args).

(** The calls that reach the transport. *)
Definition is_transport_call (e : event) : bool :=
  match e with
  | EvSendMessage _ | EvSendMessageStreaming _ | EvChunk _ => true
  | _ => false
  end.

Definition transport_calls (t : list event) : nat :=
  length (filter (fun e => is_transport_call e = true) t).

(** The texts printed, in order. *)
Definition printed (t : list event) : list string :=
  omap (fun e => match e with EvPrint s => Some s | _ => None end) t.

(** The text that [print_json] prints for [m]. *)
Definition json_text (m : base_model) : string :=
  if negb (isatty w) then model_dump_json w m
  else highlight w (model_dump_json w m).

(** The text that the loops of [show_response] print for the envelope [c]:
    the envelope itself when verbose, its result or error otherwise. *)
Definition envelope_text (verbose : bool) (c : root) : result string :=
  if verbose then Ok (json_text (OfResponse c))
  else
    match outcome (get_result c) with
    | Ok p => Ok (json_text (OfPayload p))
    | Raise e => Raise e
    end.

(** The arrival of each envelope, followed at once by its text. *)
Definition arrivals (cs : list root) (texts : list string) : list event :=
  flat_map (fun '(c, t) => [EvChunk c; EvPrint t]) (zip cs texts).

Definition is_client_event (e : event) : bool :=
  match e with
  | EvOpenHttpClient _ | EvCloseHttpClient => true
  | _ => false
  end.

(** The number of HTTP clients that are open after the actions [t], when
    [n] were open before. *)
Fixpoint open_clients (t : list event) (n : nat) : nat :=
  match t with
  | [] => n
  | EvOpenHttpClient _ :: t' => open_clients t' (S n)
  | EvCloseHttpClient :: t' => open_clients t' (pred n)
  | _ :: t' => open_clients t' n
  end.

Definition released (t : list event) : bool :=
  Nat.eqb (open_clients t 0) 0.

End Dispatcher.

Arguments SendMessageRequest {MessageSendParams} id params.
Arguments SendStreamingMessageRequest {MessageSendParams} id params.
Arguments JSONRPCErrorResponse {Payload Unknown} error.
Arguments SendMessageSuccessResponse {Payload Unknown} result.
Arguments SendStreamingMessageSuccessResponse {Payload Unknown} result.
Arguments UnknownResponse {Payload Unknown} u.
Arguments Stream {Payload Unknown} chunks failure.
Arguments chunks {Payload Unknown} s.
Arguments failure {Payload Unknown} s.
Arguments Single {Payload Unknown} r.
Arguments AsyncIterator {Payload Unknown} s.
Arguments OfRequest {MessageSendParams Payload Unknown} r.
Arguments OfResponse {MessageSendParams Payload Unknown} r.
Arguments OfPayload {MessageSendParams Payload Unknown} p.
Arguments EvOpenHttpClient {MessageSendParams Payload Unknown} headers.
Arguments EvCloseHttpClient {MessageSendParams Payload Unknown}.
Arguments EvSendMessage {MessageSendParams Payload Unknown} r.
Arguments EvSendMessageStreaming {MessageSendParams Payload Unknown} r.
Arguments EvChunk {MessageSendParams Payload Unknown} c.
Arguments EvPrint {MessageSendParams Payload Unknown} text.
Arguments Env {MessageSendParams Payload Unknown}.
Arguments A2AClient {MessageSendParams Payload Unknown} e.
Arguments model_validate {MessageSendParams Payload Unknown} e.
Arguments uuid4 {MessageSendParams Payload Unknown} e.
Arguments send_message {MessageSendParams Payload Unknown} e.
Arguments send_message_streaming {MessageSendParams Payload Unknown} e.
Arguments model_dump_json {MessageSendParams Payload Unknown} e.
Arguments root_dump_json {MessageSendParams Payload Unknown} e.
Arguments isatty {MessageSendParams Payload Unknown} e.
Arguments highlight {MessageSendParams Payload Unknown} e.
Arguments print {MessageSendParams Payload Unknown} text.
Arguments is_async_iterator {Payload Unknown} obj.
Arguments print_json {MessageSendParams Payload Unknown} w result.
Arguments show_request {MessageSendParams Payload Unknown} w request verbose.
Arguments get_result {MessageSendParams Payload Unknown} w resp.
Arguments async_for {MessageSendParams Payload Unknown} cs fin body.
Arguments show_response {MessageSendParams Payload Unknown} w response verbose.
Arguments invoke {MessageSendParams Payload Unknown} w self verbose.
Arguments parser_error {MessageSendParams Payload Unknown A} message.
Arguments main {MessageSendParams Payload Unknown} w json_loads repr args.
Arguments is_transport_call {MessageSendParams Payload Unknown} e.
Arguments transport_calls {MessageSendParams Payload Unknown} t.
Arguments printed {MessageSendParams Payload Unknown} t.
Arguments open_clients {MessageSendParams Payload Unknown} t n.
Arguments released {MessageSendParams Payload Unknown} t.
Arguments json_text {MessageSendParams Payload Unknown} w m.
Arguments envelope_text {MessageSendParams Payload Unknown} w verbose c.
Arguments arrivals {MessageSendParams Payload Unknown} cs texts.
Arguments is_client_event {MessageSendParams Payload Unknown} e.

(** ** Instances of the parameters, for the examples

    A decoder for the scalars of JSON ([null], [true], [false] and the
    integers), which decodes them as [json.loads] does and rejects every
    other text with [JSONDecodeError]; [repr] for texts of printable
    characters without quotes and backslashes; and an outside world in
    which a client needs an address and every other call succeeds. *)

Fixpoint digits (s : string) (acc : Z) : option Z :=
  match s with
  | EmptyString => Some acc
  | String c s' => d ← Ascii.is_nat c; digits s' (10 * acc + Z.of_nat d)%Z
  end.

(** [0], or digits that do not begin with [0]. *)
Definition natural (s : string) : option Z :=
  match s with
  | EmptyString => None
  | String "0" (String _ _) => None
  | _ => digits s 0
  end.

Definition scalar (s : string) : option json :=
  if String.eqb s "null" then Some JNull
  else if String.eqb s "true" then Some (JBool true)
  else if String.eqb s "false" then Some (JBool false)
  else
    match s with
    | String "-" s' => n ← natural s'; Some (JInt (- n))
    | _ => n ← natural s; Some (JInt n)
    end.

Definition loads_scalar (s : string) : loads_result :=
  match scalar s with
  | Some v => Loaded v
  | None => JSONDecodeError
  end.

(** The text of [n] opening brackets. *)
Fixpoint brackets (n : nat) : string :=
  match n with
  | O => EmptyString
  | S n' => String "[" (brackets n')
  end.

Definition recursion_error : exn :=
  OtherError "RecursionError"
    ("maximum recursion depth exceeded while decoding "
     +:+ "a JSON array from a unicode string").

(** The same decoder, which on the text of 1200 opening brackets raises
    [RecursionError], as [json.loads] does. *)
Definition loads_deep (s : string) : loads_result :=
  if String.eqb s (brackets 1200) then LoadsRaises recursion_error
  else loads_scalar s.

Definition repr_plain (s : string) : string := "'" +:+ s +:+ "'".

(** [A2AClient(httpx_client, url=url)] refuses an empty address. *)
Definition new_client (url : string) : result unit :=
  if is_empty url
  then Raise (ValueError "Must provide either agent_card or url")
  else Ok tt.

Definition text_of_root (r : root string string) : string :=
  match r with
  | JSONRPCErrorResponse e => "error " +:+ e
  | SendMessageSuccessResponse p => "result " +:+ p
  | SendStreamingMessageSuccessResponse p => "result " +:+ p
  | UnknownResponse u => "unknown " +:+ u
  end.

Definition demo_env : env string string string := {|
  A2AClient := new_client;
  model_validate := fun _ => Ok "params";
  uuid4 := "00000000-0000-4000-8000-000000000000";
  send_message := fun _ => Ok (SendMessageSuccessResponse "pong");
  send_message_streaming := fun _ =>
    Stream [SendStreamingMessageSuccessResponse "one";
            JSONRPCErrorResponse "two";
            SendStreamingMessageSuccessResponse "three"] None;
  model_dump_json := fun m =>
    match m with
    | OfRequest _ => "request"
    | OfResponse r => text_of_root r
    | OfPayload p => p
    end;
  root_dump_json := text_of_root;
  isatty := false;
  highlight := fun s => s
|}.

(** An outside world in which things go wrong: parameters without a message
    do not validate, "message/send" cannot connect, and a stream breaks
    after its first envelope. *)
Definition faulty_env : env string string string := {|
  A2AClient := new_client;
  model_validate := fun ps =>
    match ps !! "message" with
    | None => Raise (ValueError "1 validation error for MessageSendParams")
    | Some _ => Ok "params"
    end;
  uuid4 := "00000000-0000-4000-8000-000000000001";
  send_message := fun _ =>
    Raise (OtherError "A2AClientHTTPError" "connection refused");
  send_message_streaming := fun _ =>
    Stream [SendStreamingMessageSuccessResponse "one"]
           (Some (OtherError "A2AClientHTTPError" "connection lost"));
  model_dump_json := fun m =>
    match m with
    | OfRequest _ => "request"
    | OfResponse r => text_of_root r
    | OfPayload p => p
    end;
  root_dump_json := text_of_root;
  isatty := false;
  highlight := fun s => s
|}.

(** ** Views of a trace *)

(** The requests handed to the a2a client, in order. *)
Definition sent_requests {MessageSendParams Payload Unknown : Type}
    (t : list (event MessageSendParams Payload Unknown))
  : list (request MessageSendParams) :=
  omap (fun e => match e with
                 | EvSendMessage r | EvSendMessageStreaming r => Some r
                 | _ => None
                 end) t.

(** The identifier of a request. *)
Definition request_id {MessageSendParams : Type}
    (r : request MessageSendParams) : string :=
  match r with
  | SendMessageRequest id _ | SendStreamingMessageRequest id _ => id
  end.

(** The arrival of a chunk and the printing of a text: what the handling of
    a response does. *)
Definition is_output_event {MessageSendParams Payload Unknown : Type}
    (e : event MessageSendParams Payload Unknown) : bool :=
  match e with
  | EvChunk _ | EvPrint _ => true
  | _ => false
  end.

(** The heading and the text that [show_request] prints. *)
Definition request_echo {MessageSendParams Payload Unknown : Type}
    (w : env MessageSendParams Payload Unknown) (verbose : bool)
    (r : request MessageSendParams)
  : list (event MessageSendParams Payload Unknown) :=
  if verbose then [EvPrint "Request:"; EvPrint (json_text w (OfRequest r))]
  else [].

(** The argument [headers] of [httpx.AsyncClient]: [self.headers or None]. *)
Definition headers_or_None (hs : gmap string string)
  : option (gmap string string) :=
  if decide (hs = ∅) then None else Some hs.

(** ** Facts about the matcher *)

Section MatcherFacts.

Import Re.

Lemma app_nil_l_s (s : string) : "" +:+ s = s.
Proof. reflexivity. Qed.

Lemma app_cons_s (c : ascii) (s t : string) :
  String c s +:+ t = String c (s +:+ t).
Proof. reflexivity. Qed.

Lemma not_colon_eq_false (c : ascii) :
  not_colon_eq c = false -> c = ":"%char \/ c = "="%char.
Proof.
  unfold not_colon_eq. intros H.
  apply negb_false_iff, orb_true_iff in H.
  destruct H as [H|H]; apply Ascii.eqb_eq in H; auto.
Qed.

(** A continuation that fails whenever the rest begins with a character of
    the set sees only the longest run of the set. *)
Lemma flat_map_plus_set {B} (p : ascii -> bool) (f : string * string -> list B) s :
  (forall x c r, p c = true -> f (x, String c r) = []) ->
  flat_map f (plus_set p s) =
    let '(k, r) := span p s in if is_empty k then [] else f (k, r).
Proof.
  revert f. induction s as [|c s IH]; intros f Hf; simpl; [done|].
  destruct (p c) eqn:Hc; [|done].
  rewrite flat_map_app, flat_map_concat_map, map_map, <- flat_map_concat_map.
  rewrite (flat_map_ext _ (fun y => f (String c y.1, y.2)))
    by (by intros [x r]).
  rewrite (IH (fun y => f (String c y.1, y.2))) by (intros; by apply Hf).
  simpl. destruct (span p s) as [k r] eqn:Hs. simpl.
  destruct k as [|d k]; simpl.
  - rewrite app_nil_r. destruct s as [|d s]; simpl in Hs.
    + by inversion Hs.
    + destruct (p d) eqn:Hd.
      * destruct (span p s); by inversion Hs.
      * by inversion Hs.
  - destruct s as [|e s]; simpl in Hs; [by inversion Hs|].
    destruct (p e) eqn:He.
    + by rewrite (Hf _ _ _ He), app_nil_r.
    + by inversion Hs.
Qed.

(** [.+] tries the whole remaining text first. *)
Lemma plus_set_dot_all_head c v :
  exists tl, plus_set dot_all (String c v) = (String c v, "") :: tl.
Proof.
  revert c. induction v as [|d v IH]; intros c.
  - by exists [].
  - destruct (IH d) as [tl Htl]. cbn [plus_set dot_all] in *.
    rewrite Htl. simpl. eauto.
Qed.

End MatcherFacts.

Section PatternFacts.
Import Re.

Lemma first_groups_map (g : string -> string) l :
  first_groups (map (fun '(x, st) => (g x, st)) l) = first_groups l.
Proof. by destruct l as [|[x st] l]. Qed.

Lemma first_groups_app l1 l2 :
  first_groups (l1 ++ l2) =
    match first_groups l1 with Some g => Some g | None => first_groups l2 end.
Proof. by destruct l1 as [|[x st] l1]. Qed.

Lemma run_VALUE_EOL_empty st : m_rest st = "" -> run VALUE_EOL st = [].
Proof. intros H. unfold VALUE_EOL. cbn [run]. by rewrite H. Qed.

Lemma run_VALUE_EOL_first st :
  first_groups (run VALUE_EOL st) =
    if is_empty (m_rest st) then None else Some (m_groups st ++ [m_rest st]).
Proof.
  destruct (m_rest st) as [|c v] eqn:Hr.
  - by rewrite run_VALUE_EOL_empty.
  - unfold VALUE_EOL. cbn [run]. rewrite Hr.
    destruct (plus_set_dot_all_head c v) as [tl ->]. by simpl.
Qed.

Lemma run_SEP_VALUE_EOL_nil st :
  match m_rest st with
  | String c _ => not_colon_eq c = true
  | EmptyString => True
  end ->
  run SEP_VALUE_EOL st = [].
Proof.
  intros H. unfold SEP_VALUE_EOL. cbn [run].
  destruct (m_rest st) as [|c r]; [done|].
  unfold not_colon_eq in H. apply negb_true_iff, orb_false_iff in H.
  destruct H as [H1 H2]. cbn [prefix_rest].
  rewrite (Ascii.eqb_sym ":" c), (Ascii.eqb_sym "=" c), H1, H2. done.
Qed.

Lemma run_SEP_VALUE_EOL_first st :
  first_groups (run SEP_VALUE_EOL st) =
    match m_rest st with
    | String "=" v =>
        if is_empty v then None else Some (m_groups st ++ ["="; v])
    | String ":" (String "=" v) =>
        if is_empty v then Some (m_groups st ++ [":"; "="])
        else Some (m_groups st ++ [":="; v])
    | String ":" v =>
        if is_empty v then None else Some (m_groups st ++ [":"; v])
    | _ => None
    end.
Proof.
  destruct (m_rest st) as [|c r] eqn:Hr.
  { rewrite run_SEP_VALUE_EOL_nil; [done|by rewrite Hr]. }
  destruct (not_colon_eq c) eqn:Hc.
  { rewrite run_SEP_VALUE_EOL_nil; [|by rewrite Hr].
    destruct c as [[] [] [] [] [] [] [] []]; try done. }
  apply not_colon_eq_false in Hc as [->| ->].
  - (* the rest begins with a colon *)
    unfold SEP_VALUE_EOL. cbn [run]. rewrite Hr. cbn [prefix_rest].
    change (Ascii.eqb "=" ":") with false.
    change (Ascii.eqb ":" ":") with true. cbv iota.
    destruct r as [|d v].
    + cbn [prefix_rest map app flat_map].
      rewrite run_VALUE_EOL_empty; done.
    + cbn [prefix_rest]. destruct (Ascii.eqb "=" d) eqn:Hd.
      * apply Ascii.eqb_eq in Hd as <-.
        cbn [map app flat_map]. rewrite app_nil_r.
        rewrite first_groups_app, !first_groups_map, !run_VALUE_EOL_first.
        cbn [close_group advance m_rest m_groups].
        destruct v; simpl; by rewrite <- ?app_assoc.
      * cbn [map app flat_map]. rewrite app_nil_r.
        rewrite first_groups_map, run_VALUE_EOL_first.
        cbn [close_group advance m_rest m_groups is_empty].
        rewrite <- app_assoc.
        destruct d as [[] [] [] [] [] [] [] []]; try done.
  - (* the rest begins with an equals sign *)
    unfold SEP_VALUE_EOL. cbn [run]. rewrite Hr. cbn [prefix_rest].
    change (Ascii.eqb "=" "=") with true.
    change (Ascii.eqb ":" "=") with false. cbv iota.
    cbn [map app flat_map]. rewrite app_nil_r.
    rewrite first_groups_map, run_VALUE_EOL_first.
    cbn [close_group advance m_rest m_groups].
    destruct r; simpl; by rewrite <- ?app_assoc.
Qed.

(** The regular expression and the scanner agree on every subject. *)
Lemma re_match_PATTERN s : re_match PATTERN s = split_item s.
Proof.
  unfold re_match. fold (first_groups (run PATTERN (MState 0 s []))).
  change PATTERN with
    (Seq Bol (Seq (Group (PlusSet not_colon_eq)) SEP_VALUE_EOL)).
  cbn [run m_pos Nat.eqb flat_map m_rest]. rewrite app_nil_r.
  rewrite first_groups_map.
  rewrite flat_map_concat_map, !map_map, <- flat_map_concat_map.
  rewrite flat_map_plus_set.
  - unfold split_item. destruct (span not_colon_eq s) as [k r].
    destruct (is_empty k); [done|].
    rewrite first_groups_map, run_SEP_VALUE_EOL_first. done.
  - intros x c r Hc. by rewrite run_SEP_VALUE_EOL_nil.
Qed.

End PatternFacts.

(** ** Facts about the scanner *)

Section ScannerFacts.

Lemma is_empty_false (s : string) : s <> "" -> is_empty s = false.
Proof. by destruct s. Qed.

Lemma is_key_inv k :
  is_key k = true -> k <> "" /\ string_forall not_colon_eq k = true.
Proof.
  unfold is_key. intros [H1 H2]%andb_true_iff. split; [|done].
  by destruct k.
Qed.

Lemma span_app (p : ascii -> bool) k c r :
  string_forall p k = true -> p c = false ->
  span p (k +:+ String c r) = (k, String c r).
Proof.
  intros Hk Hc. induction k as [|d k IH].
  - rewrite app_nil_l_s. simpl. by rewrite Hc.
  - rewrite app_cons_s. simpl in Hk |- *.
    apply andb_true_iff in Hk as [-> Hk]. by rewrite IH.
Qed.

Lemma span_all (p : ascii -> bool) k :
  string_forall p k = true -> span p k = (k, "").
Proof.
  induction k as [|d k IH]; [done|]. simpl.
  intros [-> Hk]%andb_true_iff. by rewrite IH.
Qed.

Lemma span_spec (p : ascii -> bool) s k r :
  span p s = (k, r) ->
  s = k +:+ r /\ string_forall p k = true /\ starts_with_set p r = false.
Proof.
  revert k r. induction s as [|c s IH]; intros k r; simpl.
  - by intros [= <- <-].
  - destruct (p c) eqn:Hc.
    + destruct (span p s) as [k' r'] eqn:Hs. intros [= <- <-].
      destruct (IH _ _ eq_refl) as (-> & Hk & Hr).
      simpl. by rewrite Hc, Hk.
    + intros [= <- <-]. simpl. by rewrite Hc.
Qed.

Lemma split_item_eq k v :
  is_key k = true -> v <> "" ->
  split_item (k +:+ "=" +:+ v) = Some [k; "="; v].
Proof.
  intros [Hk1 Hk2]%is_key_inv Hv. unfold split_item.
  change ("=" +:+ v) with (String "=" v).
  rewrite span_app by done.
  by rewrite (is_empty_false k), (is_empty_false v).
Qed.

Lemma split_item_colon_eq k v :
  is_key k = true -> v <> "" ->
  split_item (k +:+ ":=" +:+ v) = Some [k; ":="; v].
Proof.
  intros [Hk1 Hk2]%is_key_inv Hv. unfold split_item.
  change (":=" +:+ v) with (String ":" (String "=" v)).
  rewrite span_app by done.
  by rewrite (is_empty_false k), (is_empty_false v).
Qed.

Lemma split_item_colon_eq_empty k :
  is_key k = true -> split_item (k +:+ ":=") = Some [k; ":"; "="].
Proof.
  intros [Hk1 Hk2]%is_key_inv. unfold split_item.
  rewrite span_app by done. by rewrite (is_empty_false k).
Qed.

Lemma split_item_colon k v :
  is_key k = true -> v <> "" -> starts_with "=" v = false ->
  split_item (k +:+ ":" +:+ v) = Some [k; ":"; v].
Proof.
  intros [Hk1 Hk2]%is_key_inv Hv Hs. unfold split_item.
  change (":" +:+ v) with (String ":" v).
  rewrite span_app by done. rewrite (is_empty_false k) by done.
  destruct v as [|d v]; [done|]. simpl in Hs.
  destruct d as [[] [] [] [] [] [] [] []]; try done.
Qed.

Lemma split_item_no_value k :
  string_forall not_colon_eq k = true ->
  split_item (k +:+ "=") = None /\ split_item (k +:+ ":") = None.
Proof.
  intros Hk. unfold split_item. rewrite !span_app by done.
  by destruct (is_empty k).
Qed.

Lemma split_item_no_separator s :
  string_forall not_colon_eq s = true -> split_item s = None.
Proof.
  intros Hs. unfold split_item. rewrite span_all by done.
  by destruct (is_empty s).
Qed.

(** Whatever the scanner accepts has the shape of the grammar. *)
Lemma split_item_sound s gs :
  split_item s = Some gs ->
  exists k sep v : string,
    gs = [k; sep; v] /\ s = k +:+ sep +:+ v /\ is_key k = true /\ v <> "" /\
    (sep = "=" \/ sep = ":=" \/ sep = ":") /\
    (sep = ":" -> starts_with "=" v = true -> v = "=").
Proof.
  unfold split_item. destruct (span not_colon_eq s) as [k r] eqn:Hs.
  apply span_spec in Hs as (-> & Hk & Hr).
  destruct (is_empty k) eqn:Hek; [done|].
  assert (is_key k = true) as Hkey by (unfold is_key; by rewrite Hek, Hk).
  destruct r as [|c r]; [done|]. simpl in Hr.
  apply not_colon_eq_false in Hr as [->| ->].
  - destruct r as [|d v]; [done|].
    destruct (Ascii.eqb "=" d) eqn:Hd.
    + apply Ascii.eqb_eq in Hd as <-.
      destruct v as [|e v]; intros [= <-].
      * exists k, ":", "=". naive_solver.
      * exists k, ":=", (String e v). naive_solver.
    + intros H. exists k, ":", (String d v).
      assert (gs = [k; ":"; String d v]) as ->.
      { destruct d as [[] [] [] [] [] [] [] []]; by inversion H. }
      split_and!; try done; [by auto|].
      intros _ H'. cbn [starts_with] in H'. congruence.
  - destruct r as [|d v]; [done|]. intros [= <-].
    exists k, "=", (String d v). naive_solver.
Qed.

End ScannerFacts.

(** ** Facts about [parse] and [parse_items] *)

Section ParserFacts.

Variable json_loads : string -> loads_result.
Variable repr : string -> string.

Local Abbreviation parse' := (parse json_loads repr).
Local Abbreviation parse_all' := (parse_all json_loads repr).
Local Abbreviation parse_items' := (parse_items json_loads repr).

(** [parse], with the scanner in the place of the regular expression. *)
Lemma parse_scan item st :
  parse' item st =
    match split_item item with
    | None => Raise (ValueError ("Invalid item: " +:+ repr item))
    | Some [key; separator; value] =>
        if String.eqb separator "=" then
          Ok (store (Param key (JStr value)) st)
        else if String.eqb separator ":=" then
          match json_loads value with
          | Loaded parsed_value => Ok (store (Param key parsed_value) st)
          | JSONDecodeError =>
              Raise (ValueError ("Invalid JSON value: " +:+ repr value))
          | LoadsRaises e => Raise e
          end
        else if String.eqb separator ":" then Ok (store (Header key value) st)
        else Raise (ValueError ("Unsupported separator: " +:+ repr separator))
    | Some gs => _ ← unpack3 gs; Ok st
    end.
Proof.
  unfold parse. rewrite re_match_PATTERN.
  destruct (split_item item) as [gs|]; [|done].
  by destruct gs as [|a [|b [|c [|d gs]]]].
Qed.

Lemma parse_string_field k v st :
  is_key k = true -> v <> "" ->
  parse' (k +:+ "=" +:+ v) st = Ok (store (Param k (JStr v)) st).
Proof. intros Hk Hv. by rewrite parse_scan, split_item_eq. Qed.

Lemma parse_json_field k v st :
  is_key k = true -> v <> "" ->
  parse' (k +:+ ":=" +:+ v) st =
    match json_loads v with
    | Loaded j => Ok (store (Param k j) st)
    | JSONDecodeError => Raise (ValueError ("Invalid JSON value: " +:+ repr v))
    | LoadsRaises e => Raise e
    end.
Proof. intros Hk Hv. by rewrite parse_scan, split_item_colon_eq. Qed.

Lemma parse_header_field k v st :
  is_key k = true -> v <> "" -> starts_with "=" v = false ->
  parse' (k +:+ ":" +:+ v) st = Ok (store (Header k v) st).
Proof. intros Hk Hv Hs. by rewrite parse_scan, split_item_colon. Qed.

Lemma parse_colon_eq_alone k st :
  is_key k = true -> parse' (k +:+ ":=") st = Ok (store (Header k "=") st).
Proof. intros Hk. by rewrite parse_scan, split_item_colon_eq_empty. Qed.

(** An item either fails, whatever the dictionaries hold, or stores one
    entry, whatever they hold. *)
Lemma parse_cases item :
  (exists e, forall st, parse' item st = Raise e) \/
  (exists en, forall st, parse' item st = Ok (store en st)).
Proof.
  destruct (split_item item) as [gs|] eqn:Hs.
  - destruct (split_item_sound _ _ Hs) as (k & sep & v & -> & _ & _ & _ & Hsep & _).
    destruct Hsep as [->|[->| ->]].
    + right. exists (Param k (JStr v)). intros st. by rewrite parse_scan, Hs.
    + destruct (json_loads v) as [j| |e] eqn:Hj.
      * right. exists (Param k j). intros st.
        by rewrite parse_scan, Hs; simpl; rewrite Hj.
      * left. eexists. intros st. by rewrite parse_scan, Hs; simpl; rewrite Hj.
      * left. exists e. intros st. by rewrite parse_scan, Hs; simpl; rewrite Hj.
    + right. exists (Header k v). intros st. by rewrite parse_scan, Hs.
  - left. eexists. intros st. by rewrite parse_scan, Hs.
Qed.

Lemma parse_raise_any item st st' e :
  parse' item st = Raise e -> parse' item st' = Raise e.
Proof.
  destruct (parse_cases item) as [[e' H]|[en H]]; rewrite !H; congruence.
Qed.

Lemma parse_ok_any item st st1 st' :
  parse' item st = Ok st1 -> exists st2, parse' item st' = Ok st2.
Proof.
  destruct (parse_cases item) as [[e' H]|[en H]]; rewrite !H; [done|eauto].
Qed.

Lemma parse_all_app items1 items2 st :
  parse_all' (items1 ++ items2) st =
    st' ← parse_all' items1 st; parse_all' items2 st'.
Proof.
  revert st. induction items1 as [|it items1 IH]; intros st; simpl; [done|].
  destruct (parse' it st) as [st1|e]; simpl; [apply IH|done].
Qed.

(** The items before the first malformed one are parsed, and the error of
    that one is the outcome of the call. *)
Lemma parse_items_first_malformed items1 bad items2 e :
  Forall (fun it => exists st', parse' it (Maps ∅ ∅) = Ok st') items1 ->
  parse' bad (Maps ∅ ∅) = Raise e ->
  parse_items' (items1 ++ bad :: items2) = Raise e.
Proof.
  intros Hgood Hbad. unfold parse_items. rewrite parse_all_app.
  assert (forall st, exists st1, parse_all' items1 st = Ok st1) as Hall.
  { induction Hgood as [|it items1 [st' Hit] _ IH]; intros st; simpl; [eauto|].
    destruct (parse_ok_any _ _ _ st Hit) as [st2 ->]. simpl. apply IH. }
  destruct (Hall (Maps ∅ ∅)) as [st1 ->]. simpl.
  by rewrite (parse_raise_any _ _ st1 _ Hbad).
Qed.

Lemma first_malformed items :
  (exists it e, it ∈ items /\ parse' it (Maps ∅ ∅) = Raise e) ->
  exists items1 bad items2 e,
    items = items1 ++ bad :: items2 /\
    Forall (fun it => exists st', parse' it (Maps ∅ ∅) = Ok st') items1 /\
    parse' bad (Maps ∅ ∅) = Raise e.
Proof.
  induction items as [|it items IH]; intros (x & e & Hin & Hx).
  - by apply elem_of_nil in Hin.
  - destruct (parse' it (Maps ∅ ∅)) as [st'|e'] eqn:Hit.
    + apply elem_of_cons in Hin as [->|Hin]; [congruence|].
      destruct IH as (l1 & bad & l2 & e2 & -> & Hl1 & Hbad); [by eauto|].
      exists (it :: l1), bad, l2, e2. split_and!; [done| |done].
      constructor; eauto.
    + exists [], it, items, e'. split_and!; [done|constructor|done].
Qed.

Lemma Ok_inj {A} (a b : A) : Ok a = Ok b -> a = b.
Proof. congruence. Qed.

Lemma parse_all_app_inv items1 tok items2 st0 st :
  parse_all' (items1 ++ tok :: items2) st0 = Ok st ->
  exists st1 st2,
    parse_all' items1 st0 = Ok st1 /\ parse' tok st1 = Ok st2 /\
    parse_all' items2 st2 = Ok st.
Proof.
  rewrite parse_all_app. destruct (parse_all' items1 st0) as [st1|]; [|done].
  simpl. destruct (parse' tok st1) as [st2|] eqn:Htok; [|done]. simpl. eauto.
Qed.

Lemma sets_param_store item k v st :
  sets_param json_loads repr item k v ->
  parse' item st = Ok (store (Param k v) st).
Proof.
  unfold sets_param. destruct (parse_cases item) as [[e H]|[en H]];
    rewrite !H; [done|].
  destruct en as [k' v'|k' v']; simpl; intros Heq%Ok_inj;
    pose proof (f_equal params Heq) as Hp;
    pose proof (f_equal headers Heq) as Hh; simpl in Hp, Hh.
  - rewrite insert_empty in Hp. apply (f_equal (.!! k)) in Hp.
    rewrite lookup_singleton_eq in Hp.
    apply lookup_singleton_Some in Hp as [-> ->]. done.
  - by apply insert_non_empty in Hh.
Qed.

Lemma sets_header_store item k v st :
  sets_header json_loads repr item k v ->
  parse' item st = Ok (store (Header k v) st).
Proof.
  unfold sets_header. destruct (parse_cases item) as [[e H]|[en H]];
    rewrite !H; [done|].
  destruct en as [k' v'|k' v']; simpl; intros Heq%Ok_inj;
    pose proof (f_equal params Heq) as Hp;
    pose proof (f_equal headers Heq) as Hh; simpl in Hp, Hh.
  - by apply insert_non_empty in Hp.
  - rewrite insert_empty in Hh. apply (f_equal (.!! k)) in Hh.
    rewrite lookup_singleton_eq in Hh.
    apply lookup_singleton_Some in Hh as [-> ->]. done.
Qed.

(** An item that does not assign to the parameter [k] leaves it as it is. *)
Lemma parse_keeps_param item k st st' :
  (forall v, ~ sets_param json_loads repr item k v) ->
  parse' item st = Ok st' -> params st' !! k = params st !! k.
Proof.
  intros Hno. destruct (parse_cases item) as [[e H]|[en H]]; rewrite H; [done|].
  intros [= <-]. destruct en as [k' v'|k' v']; simpl; [|done].
  destruct (decide (k' = k)) as [->|Hne]; [|by rewrite lookup_insert_ne].
  destruct (Hno v'). unfold sets_param. rewrite H. simpl. by rewrite insert_empty.
Qed.

Lemma parse_keeps_header item k st st' :
  (forall v, ~ sets_header json_loads repr item k v) ->
  parse' item st = Ok st' -> headers st' !! k = headers st !! k.
Proof.
  intros Hno. destruct (parse_cases item) as [[e H]|[en H]]; rewrite H; [done|].
  intros [= <-]. destruct en as [k' v'|k' v']; simpl; [done|].
  destruct (decide (k' = k)) as [->|Hne]; [|by rewrite lookup_insert_ne].
  destruct (Hno v'). unfold sets_header. rewrite H. simpl. by rewrite insert_empty.
Qed.

Lemma parse_all_keeps_param items k st st' :
  (forall t v, t ∈ items -> ~ sets_param json_loads repr t k v) ->
  parse_all' items st = Ok st' -> params st' !! k = params st !! k.
Proof.
  revert st. induction items as [|it items IH]; intros st Hno; simpl.
  - by intros [= <-].
  - destruct (parse' it st) as [st1|] eqn:Hit; [|done]. simpl. intros Hrest.
    rewrite (IH st1) by (try done; intros t v ?; apply Hno; by right).
    eapply parse_keeps_param; [|done]. intros v. apply Hno. by left.
Qed.

Lemma parse_all_keeps_header items k st st' :
  (forall t v, t ∈ items -> ~ sets_header json_loads repr t k v) ->
  parse_all' items st = Ok st' -> headers st' !! k = headers st !! k.
Proof.
  revert st. induction items as [|it items IH]; intros st Hno; simpl.
  - by intros [= <-].
  - destruct (parse' it st) as [st1|] eqn:Hit; [|done]. simpl. intros Hrest.
    rewrite (IH st1) by (try done; intros t v ?; apply Hno; by right).
    eapply parse_keeps_header; [|done]. intros v. apply Hno. by left.
Qed.

(** A key that is bound in a dictionary is bound exactly once. *)
Lemma bindings_of_lookup {V} (m : gmap string V) k v :
  m !! k = Some v -> bindings_of k m = [(k, v)].
Proof.
  intros Hm. unfold bindings_of.
  pose proof (NoDup_fst_map_to_list m) as Hnd.
  apply elem_of_map_to_list in Hm.
  induction (map_to_list m) as [|[k' v'] l IH]; [by apply elem_of_nil in Hm|].
  rewrite fmap_cons in Hnd. apply NoDup_cons in Hnd as [Hk' Hnd].
  apply elem_of_cons in Hm as [[= <- <-]|Hin].
  - rewrite filter_cons_True by done. f_equal.
    clear IH. induction l as [|[k2 v2] l IHl]; [done|].
    rewrite fmap_cons in Hk', Hnd. apply not_elem_of_cons in Hk' as [Hne Hk'].
    apply NoDup_cons in Hnd as [_ Hnd].
    rewrite filter_cons_False by (intros Heq; apply Hne; by rewrite <- Heq).
    by apply IHl.
  - rewrite filter_cons_False; [by apply IH|].
    simpl. intros ->. apply Hk'. by apply (list_elem_of_fmap_2 fst) in Hin.
Qed.

(** An accepted item [k=v] or [k:v] has a key and a value of one or more
    characters. *)
Lemma parse_accepted_inv k sep v st st' :
  string_forall not_colon_eq k = true -> sep = "=" \/ sep = ":" ->
  parse' (k +:+ sep +:+ v) st = Ok st' -> is_key k = true /\ v <> "".
Proof.
  intros Hk Hsep. rewrite parse_scan. unfold split_item, is_key. rewrite Hk.
  destruct Hsep as [->| ->].
  - change ("=" +:+ v) with (String "=" v). rewrite span_app by done.
    destruct (is_empty k); [done|]. by destruct v.
  - change (":" +:+ v) with (String ":" v). rewrite span_app by done.
    destruct (is_empty k); [done|]. by destruct v.
Qed.

(** The items of the grammar: a key, one of the three separators, and a
    value of one or more characters. *)
Lemma split_item_complete k sep v :
  is_key k = true -> sep = "=" \/ sep = ":=" \/ sep = ":" -> v <> "" ->
  is_Some (split_item (k +:+ sep +:+ v)).
Proof.
  intros Hk [->|[->| ->]] Hv.
  - by rewrite split_item_eq.
  - by rewrite split_item_colon_eq.
  - destruct (starts_with "=" v) eqn:Hs; [|by rewrite split_item_colon].
    destruct v as [|d v]; [done|]. cbn [starts_with] in Hs.
    apply Ascii.eqb_eq in Hs as <-.
    change (k +:+ ":" +:+ String "=" v) with (k +:+ ":=" +:+ v).
    destruct v as [|e v].
    + by rewrite split_item_colon_eq_empty.
    + by rewrite split_item_colon_eq.
Qed.

Lemma invalid_item_not_invalid_json x y :
  ValueError ("Invalid item: " +:+ x) <> ValueError ("Invalid JSON value: " +:+ y).
Proof. intros [= H]. Qed.

(** C1: an item [k=v] stores the text [v] under the parameter [k] and
    leaves the headers alone; an item [k:v] (one whose value does not begin
    with [=]) stores [v] under the header [k] and leaves the parameters
    alone; an item [k:=v] with [v] JSON text stores the decoded value under
    the parameter [k].  The items [k=v] and [k:v] that are accepted are
    those with a key and a value of one or more characters.  On
    ["name=Alice"; "age:=30"; "x-api-key:secret"] the result is the
    parameters name and age and the header x-api-key.  The empty text is
    not JSON. *)
Theorem C1_items_routed_by_separator :
  json_loads "" = JSONDecodeError ->
  (forall k v st, is_key k = true -> v <> "" ->
     parse json_loads repr (k +:+ "=" +:+ v) st
       = Ok (Maps (<[k := JStr v]> (params st)) (headers st)) /\
     parse_items json_loads repr [k +:+ "=" +:+ v] = Ok ({[k := JStr v]}, ∅)) /\
  (forall k v st, is_key k = true -> v <> "" -> starts_with "=" v = false ->
     parse json_loads repr (k +:+ ":" +:+ v) st
       = Ok (Maps (params st) (<[k := v]> (headers st))) /\
     parse_items json_loads repr [k +:+ ":" +:+ v] = Ok (∅, {[k := v]})) /\
  (forall k v j st, is_key k = true -> json_loads v = Loaded j ->
     parse json_loads repr (k +:+ ":=" +:+ v) st
       = Ok (Maps (<[k := j]> (params st)) (headers st)) /\
     parse_items json_loads repr [k +:+ ":=" +:+ v] = Ok ({[k := j]}, ∅)) /\
  (forall k sep v st st', string_forall not_colon_eq k = true ->
     sep = "=" \/ sep = ":" ->
     parse json_loads repr (k +:+ sep +:+ v) st = Ok st' ->
     is_key k = true /\ v <> "") /\
  (json_loads "30" = Loaded (JInt 30) ->
     parse_items json_loads repr ["name=Alice"; "age:=30"; "x-api-key:secret"]
       = Ok (<["age" := JInt 30]> {["name" := JStr "Alice"]},
             {["x-api-key" := "secret"]})).
Proof.
  intros Hempty. split_and!; [| | |apply parse_accepted_inv|].
  - intros k v st Hk Hv. unfold parse_items, parse_all.
    rewrite !parse_string_field by done. simpl. by rewrite insert_empty.
  - intros k v st Hk Hv Hs. unfold parse_items, parse_all.
    rewrite !parse_header_field by done. simpl. by rewrite insert_empty.
  - intros k v j st Hk Hj.
    assert (v <> "") as Hv by (intros ->; congruence).
    unfold parse_items, parse_all.
    rewrite !parse_json_field by done. rewrite Hj. simpl.
    by rewrite insert_empty.
  - intros H30. unfold parse_items, parse_all.
    change "name=Alice" with ("name" +:+ "=" +:+ "Alice").
    change "age:=30" with ("age" +:+ ":=" +:+ "30").
    change "x-api-key:secret" with ("x-api-key" +:+ ":" +:+ "secret").
    rewrite parse_string_field by done. simpl.
    rewrite parse_json_field by done. rewrite H30. simpl.
    by rewrite !insert_empty.
Qed.

(** C2 (amended): for a key [a] and a value [b] of one or more characters,
    the item [a:=b] is matched with the separator [:=] and the value [b];
    [parse] decodes [b] as JSON and never touches the headers.  A single
    [:] is matched before a [=] only when that [=] ends the item. *)
Theorem C2_colon_eq_preferred a b st :
  is_key a = true -> b <> "" ->
  Re.re_match PATTERN (a +:+ ":=" +:+ b) = Some [a; ":="; b] /\
  parse json_loads repr (a +:+ ":=" +:+ b) st =
    match json_loads b with
    | Loaded j => Ok (Maps (<[a := j]> (params st)) (headers st))
    | JSONDecodeError => Raise (ValueError ("Invalid JSON value: " +:+ repr b))
    | LoadsRaises e => Raise e
    end /\
  (forall st', parse json_loads repr (a +:+ ":=" +:+ b) st = Ok st' ->
     headers st' = headers st) /\
  (forall s k v, Re.re_match PATTERN s = Some [k; ":"; v] ->
     starts_with "=" v = true -> v = "=").
Proof.
  intros Ha Hb. split_and!.
  - by rewrite re_match_PATTERN, split_item_colon_eq.
  - rewrite parse_json_field by done. by destruct (json_loads b).
  - intros st'. rewrite parse_json_field by done.
    destruct (json_loads b); [|done|done]. by intros [= <-].
  - intros s k v. rewrite re_match_PATTERN. intros Hs Hv.
    destruct (split_item_sound _ _ Hs)
      as (k' & sep & v' & [= -> -> ->] & _ & _ & _ & _ & H).
    by apply H.
Qed.

(** C3: a list of items with a malformed one among them is not parsed: the
    items before the first malformed one are accepted, the error of that
    one is the outcome of [parse_items], and no dictionary is returned. *)
Theorem C3_all_or_nothing items :
  (exists it e, it ∈ items /\ parse json_loads repr it (Maps ∅ ∅) = Raise e) ->
  exists items1 bad items2 e,
    items = items1 ++ bad :: items2 /\
    Forall (fun it => exists st', parse json_loads repr it (Maps ∅ ∅) = Ok st')
      items1 /\
    parse json_loads repr bad (Maps ∅ ∅) = Raise e /\
    parse_items json_loads repr items = Raise e /\
    (forall ps hs, parse_items json_loads repr items <> Ok (ps, hs)).
Proof.
  intros H. destruct (first_malformed items H) as (l1 & bad & l2 & e & -> & Hl1 & Hbad).
  exists l1, bad, l2, e. split_and!; try done.
  - by apply parse_items_first_malformed.
  - intros ps hs. by rewrite (parse_items_first_malformed _ _ _ e).
Qed.

(** C4 (amended): an item that is not a key, a separator and a value of one
    or more characters (so every item without [:] and [=]) fails with
    "Invalid item" and the [repr] of the item; an item [k:=v] whose value
    [v] has one or more characters and on which [json.loads] raises
    [JSONDecodeError] fails with "Invalid JSON value" and the [repr] of
    [v]; the two messages differ. *)
Theorem C4_two_failure_kinds :
  (forall item st,
     ~ (exists k sep v : string,
          item = k +:+ sep +:+ v /\ is_key k = true /\
          (sep = "=" \/ sep = ":=" \/ sep = ":") /\ v <> "") ->
     parse json_loads repr item st
       = Raise (ValueError ("Invalid item: " +:+ repr item))) /\
  (forall item st, string_forall not_colon_eq item = true ->
     parse json_loads repr item st
       = Raise (ValueError ("Invalid item: " +:+ repr item))) /\
  (forall k v st, is_key k = true -> v <> "" ->
     json_loads v = JSONDecodeError ->
     parse json_loads repr (k +:+ ":=" +:+ v) st
       = Raise (ValueError ("Invalid JSON value: " +:+ repr v))) /\
  (forall x y,
     ValueError ("Invalid item: " +:+ x)
       <> ValueError ("Invalid JSON value: " +:+ y)).
Proof.
  split_and!.
  - intros item st Hno. rewrite parse_scan.
    destruct (split_item item) as [gs|] eqn:Hs; [|done].
    destruct Hno.
    destruct (split_item_sound _ _ Hs) as (k & sep & v & _ & ? & ? & ? & ? & _).
    by exists k, sep, v.
  - intros item st Hitem. by rewrite parse_scan, split_item_no_separator.
  - intros k v st Hk Hv Hj. rewrite parse_json_field by done. by rewrite Hj.
  - apply invalid_item_not_invalid_json.
Qed.

(** C9: when several items assign to the same key of the same dictionary,
    the dictionary that [parse_items] returns binds the key once, to the
    value of the last of these items. *)
Theorem C9_last_occurrence_wins items1 tok items2 ps hs k :
  parse_items json_loads repr (items1 ++ tok :: items2) = Ok (ps, hs) ->
  (forall v, sets_param json_loads repr tok k v ->
     (forall t v', t ∈ items2 -> ~ sets_param json_loads repr t k v') ->
     ps !! k = Some v /\ bindings_of k ps = [(k, v)]) /\
  (forall v, sets_header json_loads repr tok k v ->
     (forall t v', t ∈ items2 -> ~ sets_header json_loads repr t k v') ->
     hs !! k = Some v /\ bindings_of k hs = [(k, v)]).
Proof.
  unfold parse_items.
  destruct (parse_all' (items1 ++ tok :: items2) (Maps ∅ ∅)) as [st|] eqn:Hall;
    [|done]. simpl. intros [= <- <-].
  apply parse_all_app_inv in Hall as (st1 & st2 & _ & Htok & Hrest).
  split; intros v Hset Hlast.
  - rewrite (sets_param_store _ _ _ st1 Hset) in Htok. injection Htok as <-.
    assert (params st !! k = Some v) as Hk.
    { rewrite (parse_all_keeps_param _ _ _ _ Hlast Hrest). simpl.
      apply lookup_insert_eq. }
    split; [done|by apply bindings_of_lookup].
  - rewrite (sets_header_store _ _ _ st1 Hset) in Htok. injection Htok as <-.
    assert (headers st !! k = Some v) as Hk.
    { rewrite (parse_all_keeps_header _ _ _ _ Hlast Hrest). simpl.
      apply lookup_insert_eq. }
    split; [done|by apply bindings_of_lookup].
Qed.

(** C10 (amended): for a text [k] without [:] and [=], the items [k=] and
    [k:] are rejected with "Invalid item"; and if the item [k:=] is
    accepted, it stores no parameter and no empty header. *)
Theorem C10_empty_value k st :
  string_forall not_colon_eq k = true ->
  parse json_loads repr (k +:+ "=") st
    = Raise (ValueError ("Invalid item: " +:+ repr (k +:+ "="))) /\
  parse json_loads repr (k +:+ ":") st
    = Raise (ValueError ("Invalid item: " +:+ repr (k +:+ ":"))) /\
  (forall st', parse json_loads repr (k +:+ ":=") st = Ok st' ->
     params st' = params st /\ headers st' !! k <> Some "").
Proof.
  intros Hk. destruct (split_item_no_value k Hk) as [H1 H2]. split_and!.
  - by rewrite parse_scan, H1.
  - by rewrite parse_scan, H2.
  - intros st'. destruct (is_key k) eqn:Hkey.
    + rewrite parse_colon_eq_alone by done. intros [= <-]. simpl.
      by rewrite lookup_insert_eq.
    + rewrite parse_scan. unfold split_item. rewrite span_app by done.
      unfold is_key in Hkey. rewrite Hk, andb_true_r in Hkey.
      apply negb_false_iff in Hkey. by rewrite Hkey.
Qed.

End ParserFacts.

(** ** Facts about the dispatcher *)

Section DispatcherFacts.

Context {MessageSendParams Payload Unknown : Type}.
Variable w : env MessageSendParams Payload Unknown.

Local Abbreviation ev := (event MessageSendParams Payload Unknown).

Lemma bind_run {A B} (t : list ev) (a : A) (f : A -> M ev B) :
  Run t (Ok a) ≫= f = Run (t ++ trace (f a)) (outcome (f a)).
Proof. reflexivity. Qed.

Lemma emit_bind {B} (e : ev) (f : unit -> M ev B) :
  emit e ≫= f = Run (e :: trace (f tt)) (outcome (f tt)).
Proof. reflexivity. Qed.

Lemma print_json_run m :
  print_json w m = Run [EvPrint (json_text w m)] (Ok tt).
Proof. unfold print_json, json_text. by destruct (negb (isatty w)). Qed.

Lemma method_not_supported m :
  m ∉ METHODS ->
  String.eqb m "message/send" = false /\ String.eqb m "message/stream" = false.
Proof.
  unfold METHODS. intros H. split; apply String.eqb_neq; intros ->;
    apply H; set_solver.
Qed.

(** *** The loop over a stream *)

Lemma async_for_arrivals (body : root Payload Unknown -> M ev unit) cs fin texts :
  Forall2 (fun c t => body c = Run [EvPrint t] (Ok tt)) cs texts ->
  async_for cs fin body =
    Run (arrivals cs texts)
        (match fin with None => Ok tt | Some e => Raise e end).
Proof.
  induction 1 as [|c t cs texts Hc _ IH]; simpl.
  - by destruct fin.
  - rewrite Hc, IH. reflexivity.
Qed.

Lemma envelope_text_body verbose c t :
  envelope_text w verbose c = Ok t ->
  (if verbose then print_json w (OfResponse c)
   else result ← get_result w c; print_json w (OfPayload result))
  = Run [EvPrint t] (Ok tt).
Proof.
  unfold envelope_text. destruct verbose.
  - intros [= <-]. apply print_json_run.
  - destruct c; intros H; cbn in H; try discriminate H;
      injection H as <-; unfold get_result, mret, M_ret;
      by rewrite bind_run, print_json_run.
Qed.

Lemma printed_arrivals (cs : list (root Payload Unknown)) texts :
  length cs = length texts ->
  printed (arrivals (MessageSendParams := MessageSendParams) cs texts) = texts.
Proof.
  revert texts. induction cs as [|c cs IH]; intros [|t texts] Hlen; try done.
  unfold printed, arrivals in *. simpl. f_equal. apply IH. by injection Hlen.
Qed.

(** *** Events of the HTTP client *)

Lemma bind_no_client_event {A B} (m : M ev A) (f : A -> M ev B) :
  Forall (fun e => is_client_event e = false) (trace m) ->
  (forall a, Forall (fun e => is_client_event e = false) (trace (f a))) ->
  Forall (fun e => is_client_event e = false) (trace (m ≫= f)).
Proof.
  intros Hm Hf. unfold mbind, M_bind. destruct (outcome m); simpl; [|done].
  apply Forall_app. auto.
Qed.

Lemma print_json_no_client_event m :
  Forall (fun e => is_client_event e = false) (trace (print_json w m)).
Proof. rewrite print_json_run. by repeat constructor. Qed.

Lemma show_request_no_client_event r verbose :
  Forall (fun e => is_client_event e = false) (trace (show_request w r verbose)).
Proof.
  unfold show_request. destruct verbose; [|by constructor].
  apply bind_no_client_event; [by repeat constructor|].
  intros _. apply print_json_no_client_event.
Qed.

Lemma async_for_no_client_event (body : root Payload Unknown -> M ev unit) cs fin :
  (forall c, Forall (fun e => is_client_event e = false) (trace (body c))) ->
  Forall (fun e => is_client_event e = false) (trace (async_for cs fin body)).
Proof.
  intros Hbody. induction cs as [|c cs IH]; cbn [async_for].
  - destruct fin; by constructor.
  - apply bind_no_client_event; [by repeat constructor|]. intros _.
    apply bind_no_client_event; [apply Hbody|]. intros _. apply IH.
Qed.

Lemma get_result_no_client_event c :
  Forall (fun e => is_client_event e = false) (trace (get_result w c)).
Proof. destruct c; by constructor. Qed.

Lemma show_response_no_client_event r verbose :
  Forall (fun e => is_client_event e = false) (trace (show_response w r verbose)).
Proof.
  unfold show_response. destruct verbose.
  - apply bind_no_client_event; [by repeat constructor|]. intros _.
    destruct r as [r|s]; simpl.
    + apply print_json_no_client_event.
    + apply async_for_no_client_event. intros c. apply print_json_no_client_event.
  - destruct r as [r|s]; simpl.
    + apply bind_no_client_event; [apply get_result_no_client_event|].
      intros p. apply print_json_no_client_event.
    + apply async_for_no_client_event. intros c.
      apply bind_no_client_event; [apply get_result_no_client_event|].
      intros p. apply print_json_no_client_event.
Qed.

Lemma open_clients_no_client_event (t : list ev) n :
  Forall (fun e => is_client_event e = false) t -> open_clients t n = n.
Proof.
  induction 1 as [|e t He _ IH]; [done|]. by destruct e.
Qed.

Lemma invoke_trace self verbose :
  exists h t,
    trace (invoke w self verbose) = EvOpenHttpClient h :: t /\
    Forall (fun e => is_client_event e = false) t.
Proof.
  unfold invoke. rewrite emit_bind. cbn [trace].
  eexists _, _. split; [reflexivity|].
  apply bind_no_client_event; [unfold lift; by constructor|]. intros _.
  destruct (String.eqb (method self) "message/send").
  { apply bind_no_client_event; [unfold lift; by constructor|]. intros ps. cbv zeta.
    apply bind_no_client_event; [apply show_request_no_client_event|]. intros _.
    apply bind_no_client_event; [by repeat constructor|]. intros _.
    apply bind_no_client_event; [unfold lift; by constructor|]. intros r.
    apply show_response_no_client_event. }
  destruct (String.eqb (method self) "message/stream"); [|by constructor].
  apply bind_no_client_event; [unfold lift; by constructor|]. intros ps. cbv zeta.
  apply bind_no_client_event; [apply show_request_no_client_event|]. intros _.
  apply bind_no_client_event; [by repeat constructor|]. intros _.
  apply show_response_no_client_event.
Qed.

(** C5 (amended): for a method that is not one of [METHODS], [main] exits
    with the usage error before doing anything else, and [invoke] fails
    without a call to the transport: it raises "Unsupported method" when
    the A2A client could be built, and ends with the exception of that
    construction otherwise. *)
Theorem C5_unsupported_method_no_transport :
  (forall json_loads repr args, arg_method args ∉ METHODS ->
     outcome (main w json_loads repr args)
       = Raise (SystemExit 2
           ("Invalid method: " +:+ arg_method args +:+
            " (choose from message/send, message/stream).")) /\
     trace (main w json_loads repr args) = [] /\
     transport_calls (trace (main w json_loads repr args)) = 0) /\
  (forall self verbose, method self ∉ METHODS ->
     outcome (invoke w self verbose)
       = match A2AClient w (url self) with
         | Ok _ => Raise (ValueError ("Unsupported method: " +:+ method self))
         | Raise e => Raise e
         end /\
     transport_calls (trace (invoke w self verbose)) = 0).
Proof.
  split.
  - intros json_loads repr args [H1 H2]%method_not_supported.
    unfold main. cbn [existsb METHODS]. rewrite H1, H2. done.
  - intros self verbose [H1 H2]%method_not_supported.
    unfold invoke. rewrite H1, H2.
    by destruct (A2AClient w (url self)).
Qed.

(** C6: when the stream delivers the envelopes [e1..eN] and each of them
    has a text, the actions of [show_response] are, after the heading of
    the verbose mode: the arrival of [e1], the printing of its text, the
    arrival of [e2], the printing of its text, and so on up to [eN]; the
    texts printed are those of [e1..eN], in that order. *)
Theorem C6_stream_rendered_in_arrival_order verbose s texts :
  Forall2 (fun c t => envelope_text w verbose c = Ok t) (chunks s) texts ->
  trace (show_response w (AsyncIterator s) verbose)
    = (if verbose then [EvPrint "Response:"] else []) ++ arrivals (chunks s) texts /\
  printed (trace (show_response w (AsyncIterator s) verbose))
    = (if verbose then ["Response:"] else []) ++ texts /\
  outcome (show_response w (AsyncIterator s) verbose)
    = match failure s with None => Ok tt | Some e => Raise e end.
Proof.
  intros Htexts.
  assert (length (chunks s) = length texts) as Hlen
    by (by eapply Forall2_length).
  assert (show_response w (AsyncIterator s) verbose =
          Run ((if verbose then [EvPrint "Response:"] else [])
                 ++ arrivals (chunks s) texts)
              (match failure s with None => Ok tt | Some e => Raise e end)) as ->.
  { unfold show_response. destruct verbose; cbn [is_async_iterator].
    - unfold print, emit. rewrite bind_run.
      rewrite (async_for_arrivals _ _ _ texts); [done|].
      eapply Forall2_impl; [exact Htexts|]. intros c t Hc.
      by apply (envelope_text_body true).
    - rewrite (async_for_arrivals _ _ _ texts); [done|].
      eapply Forall2_impl; [exact Htexts|]. intros c t Hc.
      by apply (envelope_text_body false). }
  cbn [trace outcome]. split_and!; [done| |done].
  unfold printed. rewrite omap_app.
  fold (printed (arrivals (MessageSendParams := MessageSendParams)
                   (chunks s) texts)).
  rewrite printed_arrivals by done. by destruct verbose.
Qed.

(** C7 (amended): [invoke] opens one HTTP client, as its first action, and
    closes none: however the call ends, the client is still open. *)
Theorem C7_http_client_never_released self verbose :
  exists h t,
    trace (invoke w self verbose) = EvOpenHttpClient h :: t /\
    Forall (fun e => is_client_event e = false) t /\
    (EvCloseHttpClient ∉ trace (invoke w self verbose)) /\
    open_clients (trace (invoke w self verbose)) 0 = 1 /\
    released (trace (invoke w self verbose)) = false.
Proof.
  destruct (invoke_trace self verbose) as (h & t & Ht & Hnc).
  exists h, t. unfold released. rewrite Ht. cbn [open_clients].
  rewrite (open_clients_no_client_event _ _ Hnc). split_and!; try done.
  intros [[=]|Hin]%elem_of_cons.
  rewrite Forall_forall in Hnc. by apply Hnc in Hin.
Qed.

End DispatcherFacts.

(** ** The theorems at concrete inputs *)

Lemma C1_witness :
  parse loads_scalar repr_plain ("name" +:+ "=" +:+ "Alice") (Maps ∅ ∅)
    = Ok (Maps (<["name" := JStr "Alice"]> ∅) ∅) /\
  parse loads_scalar repr_plain ("x-api-key" +:+ ":" +:+ "secret") (Maps ∅ ∅)
    = Ok (Maps ∅ (<["x-api-key" := "secret"]> ∅)) /\
  parse loads_scalar repr_plain ("age" +:+ ":=" +:+ "30") (Maps ∅ ∅)
    = Ok (Maps (<["age" := JInt 30]> ∅) ∅) /\
  parse_items loads_scalar repr_plain ["name=Alice"; "age:=30"; "x-api-key:secret"]
    = Ok (<["age" := JInt 30]> {["name" := JStr "Alice"]},
          {["x-api-key" := "secret"]}).
Proof.
  destruct (C1_items_routed_by_separator loads_scalar repr_plain eq_refl)
    as (H1 & H2 & H3 & _ & H4).
  split_and!.
  - apply (H1 "name" "Alice" (Maps ∅ ∅)); [reflexivity|discriminate].
  - apply (H2 "x-api-key" "secret" (Maps ∅ ∅));
      [reflexivity|discriminate|reflexivity].
  - apply (H3 "age" "30" (JInt 30) (Maps ∅ ∅)); reflexivity.
  - apply H4. reflexivity.
Defined.

Lemma C2_witness :
  Re.re_match PATTERN ("age" +:+ ":=" +:+ "30") = Some ["age"; ":="; "30"] /\
  forall st',
    parse loads_scalar repr_plain ("age" +:+ ":=" +:+ "30") (Maps ∅ ∅) = Ok st' ->
    headers st' = ∅.
Proof.
  destruct (C2_colon_eq_preferred loads_scalar repr_plain "age" "30" (Maps ∅ ∅))
    as (H1 & _ & H3 & _); [reflexivity|discriminate|].
  split; [exact H1|exact H3].
Defined.

Lemma C2_counterexample :
  Re.re_match PATTERN ("a" +:+ ":=" +:+ "") = Some ["a"; ":"; "=" +:+ ""] /\
  parse loads_scalar repr_plain ("a" +:+ ":=" +:+ "") (Maps ∅ ∅)
    = Ok (Maps ∅ {["a" := "=" +:+ ""]}).
Proof. split; reflexivity. Qed.

Lemma C3_witness :
  exists items1 bad items2 e,
    ["a=1"; "bad"; "b=2"] = items1 ++ bad :: items2 /\
    Forall (fun it =>
              exists st', parse loads_scalar repr_plain it (Maps ∅ ∅) = Ok st')
      items1 /\
    parse loads_scalar repr_plain bad (Maps ∅ ∅) = Raise e /\
    parse_items loads_scalar repr_plain ["a=1"; "bad"; "b=2"] = Raise e /\
    (forall ps hs,
       parse_items loads_scalar repr_plain ["a=1"; "bad"; "b=2"] <> Ok (ps, hs)).
Proof.
  apply (C3_all_or_nothing loads_scalar repr_plain ["a=1"; "bad"; "b=2"]).
  exists "bad", (ValueError "Invalid item: 'bad'"). split; [|reflexivity].
  apply elem_of_cons. right. apply elem_of_cons. by left.
Defined.

Lemma C4_witness :
  parse loads_scalar repr_plain "=1" (Maps ∅ ∅)
    = Raise (ValueError ("Invalid item: " +:+ repr_plain "=1")) /\
  parse loads_scalar repr_plain "bad_token" (Maps ∅ ∅)
    = Raise (ValueError ("Invalid item: " +:+ repr_plain "bad_token")) /\
  parse loads_scalar repr_plain ("k" +:+ ":=" +:+ "oops") (Maps ∅ ∅)
    = Raise (ValueError ("Invalid JSON value: " +:+ repr_plain "oops")).
Proof.
  destruct (C4_two_failure_kinds loads_scalar repr_plain)
    as (H1 & H1' & H2 & _).
  split_and!.
  - apply H1. intros (k & sep & v & Heq & Hk & Hsep & Hv).
    destruct (split_item_complete k sep v Hk Hsep Hv) as [gs Hgs].
    rewrite <- Heq in Hgs. discriminate Hgs.
  - apply H1'. reflexivity.
  - apply H2; [reflexivity|discriminate|reflexivity].
Defined.

Lemma C4_counterexample :
  (loads_scalar "" = JSONDecodeError /\
   parse loads_scalar repr_plain ("k" +:+ ":=" +:+ "") (Maps ∅ ∅)
     = Ok (Maps ∅ {["k" := "="]}) /\
   parse loads_scalar repr_plain ("k" +:+ ":=" +:+ "") (Maps ∅ ∅)
     <> Raise (ValueError ("Invalid JSON value: " +:+ repr_plain ""))) /\
  (parse loads_deep repr_plain ("k" +:+ ":=" +:+ brackets 1200) (Maps ∅ ∅)
     = Raise recursion_error /\
   parse loads_deep repr_plain ("k" +:+ ":=" +:+ brackets 1200) (Maps ∅ ∅)
     <> Raise (ValueError ("Invalid JSON value: "
                             +:+ repr_plain (brackets 1200)))).
Proof.
  split; [split_and!; [reflexivity|reflexivity|discriminate]|].
  assert (loads_deep (brackets 1200) = LoadsRaises recursion_error)
    as Hdeep by (vm_compute; reflexivity).
  rewrite (parse_json_field loads_deep repr_plain "k" (brackets 1200) (Maps ∅ ∅))
    by (reflexivity || (cbn [brackets]; discriminate)).
  rewrite Hdeep. split; [reflexivity|discriminate].
Qed.

Lemma C9_witness :
  let ps : gmap string json := <["b" := JStr "3"]> {["a" := JStr "2"]} in
  ps !! "a" = Some (JStr "2") /\ bindings_of "a" ps = [("a", JStr "2")].
Proof.
  intros ps.
  apply (C9_last_occurrence_wins loads_scalar repr_plain
           ["a=1"] "a=2" ["b=3"] ps ∅ "a").
  - reflexivity.
  - reflexivity.
  - intros t v' ->%list_elem_of_singleton H.
    apply Ok_inj, (f_equal params), (f_equal (.!! "a")) in H.
    vm_compute in H. discriminate H.
Defined.

Lemma C10_witness :
  parse loads_scalar repr_plain ("k" +:+ "=") (Maps ∅ ∅)
    = Raise (ValueError ("Invalid item: " +:+ repr_plain ("k" +:+ "="))) /\
  parse loads_scalar repr_plain ("k" +:+ ":") (Maps ∅ ∅)
    = Raise (ValueError ("Invalid item: " +:+ repr_plain ("k" +:+ ":"))).
Proof.
  destruct (C10_empty_value loads_scalar repr_plain "k" (Maps ∅ ∅))
    as (H1 & H2 & _); [reflexivity|].
  split; [exact H1|exact H2].
Defined.

Lemma C10_counterexample :
  parse_items loads_scalar repr_plain ["k:="] = Ok (∅, {["k" := "="]}) /\
  parse_items loads_scalar repr_plain ["k:="]
    <> Raise (ValueError ("Invalid item: " +:+ repr_plain "k:=")).
Proof. split; [reflexivity|discriminate]. Qed.

Lemma C5_witness :
  let self := MkClient "http://agent" "tasks/get" ∅ ∅ in
  let args := MkNamespace "http://agent" "tasks/get" ["name=Alice"] false in
  (outcome (main demo_env loads_scalar repr_plain args)
     = Raise (SystemExit 2
         "Invalid method: tasks/get (choose from message/send, message/stream).") /\
   trace (main demo_env loads_scalar repr_plain args) = [] /\
   transport_calls (trace (main demo_env loads_scalar repr_plain args)) = 0) /\
  (outcome (invoke demo_env self false)
     = Raise (ValueError "Unsupported method: tasks/get") /\
   transport_calls (trace (invoke demo_env self false)) = 0).
Proof.
  intros self args.
  assert ("tasks/get" ∉ METHODS) as Hm.
  { unfold METHODS. intros [H|[H|H]%elem_of_cons]%elem_of_cons;
      [discriminate H|discriminate H|by apply elem_of_nil in H]. }
  destruct (C5_unsupported_method_no_transport demo_env) as [H1 H2].
  split.
  - apply (H1 loads_scalar repr_plain args Hm).
  - apply (H2 self false Hm).
Defined.

Lemma C5_counterexample :
  let self := MkClient "" "tasks/get" ∅ ∅ in
  outcome (invoke demo_env self false)
    = Raise (ValueError "Must provide either agent_card or url") /\
  outcome (invoke demo_env self false)
    <> Raise (ValueError "Unsupported method: tasks/get").
Proof. split; [reflexivity|discriminate]. Qed.

Lemma C6_witness :
  let s := Stream [SendStreamingMessageSuccessResponse "one";
                   JSONRPCErrorResponse "two";
                   SendStreamingMessageSuccessResponse "three"] None in
  trace (show_response demo_env (AsyncIterator s) false)
    = [EvChunk (SendStreamingMessageSuccessResponse "one"); EvPrint "one";
       EvChunk (JSONRPCErrorResponse "two"); EvPrint "two";
       EvChunk (SendStreamingMessageSuccessResponse "three"); EvPrint "three"] /\
  printed (trace (show_response demo_env (AsyncIterator s) false))
    = ["one"; "two"; "three"] /\
  outcome (show_response demo_env (AsyncIterator s) false) = Ok tt.
Proof.
  intros s.
  apply (C6_stream_rendered_in_arrival_order demo_env false s ["one"; "two"; "three"]).
  repeat constructor.
Defined.

Lemma C7_counterexample :
  let self := MkClient "http://agent" "message/send" ∅ ∅ in
  outcome (invoke demo_env self false) = Ok tt /\
  trace (invoke demo_env self false)
    = [EvOpenHttpClient None;
       EvSendMessage (SendMessageRequest (uuid4 demo_env) "params");
       EvPrint "pong"] /\
  released (trace (invoke demo_env self false)) = false.
Proof. split_and!; reflexivity. Qed.

(** ** More about [parse_items] *)

Section ParserMore.

Variable json_loads : string -> loads_result.
Variable repr : string -> string.

(** An accepted item stores one entry; its key is a key of the grammar and,
    for a header, its value has one or more characters. *)
Lemma parse_ok_entry item st st' :
  parse json_loads repr item st = Ok st' ->
  exists en,
    st' = store en st /\
    (forall st0, parse json_loads repr item st0 = Ok (store en st0)) /\
    match en with
    | Param k _ => is_key k = true
    | Header k v => is_key k = true /\ v <> ""
    end.
Proof.
  rewrite parse_scan. destruct (split_item item) as [gs|] eqn:Hs; [|done].
  destruct (split_item_sound _ _ Hs)
    as (k & sep & v & -> & _ & Hk & Hv & Hsep & _).
  destruct Hsep as [->|[->| ->]]; simpl.
  - intros [= <-]. exists (Param k (JStr v)). split_and!; try done.
    intros st0. by rewrite parse_scan, Hs.
  - destruct (json_loads v) as [j| |e] eqn:Hj; [|done|done].
    intros [= <-]. exists (Param k j). split_and!; try done.
    intros st0. rewrite parse_scan, Hs. simpl. by rewrite Hj.
  - intros [= <-]. exists (Header k v). split_and!; try done.
    intros st0. by rewrite parse_scan, Hs.
Qed.

Lemma parse_all_raise_any items st st' e :
  parse_all json_loads repr items st = Raise e ->
  parse_all json_loads repr items st' = Raise e.
Proof.
  revert st st'. induction items as [|it items IH]; intros st st'; simpl; [done|].
  destruct (parse_cases json_loads repr it) as [[e1 H]|[en H]]; rewrite !H; simpl.
  - done.
  - apply IH.
Qed.

(** Parsing from dictionaries that are not empty: what the items store goes
    on top of what was there. *)
Lemma parse_all_union items ps hs ps2 hs2 :
  parse_all json_loads repr items (Maps ∅ ∅) = Ok (Maps ps2 hs2) ->
  parse_all json_loads repr items (Maps ps hs) = Ok (Maps (ps2 ∪ ps) (hs2 ∪ hs)).
Proof.
  revert ps2 hs2. induction items as [|it items IH] using rev_ind;
    intros ps2 hs2.
  - simpl. intros [= <- <-]. by rewrite !(left_id_L ∅ (∪)).
  - rewrite !parse_all_app.
    destruct (parse_all json_loads repr items (Maps ∅ ∅)) as [[ps1 hs1]|] eqn:H1;
      [|done].
    rewrite (IH ps1 hs1 eq_refl). simpl.
    destruct (parse json_loads repr it (Maps ps1 hs1)) as [st2|] eqn:Hit; [|done].
    simpl. intros [= ->].
    destruct (parse_ok_entry _ _ _ Hit) as (en & Hst & Hany & _).
    rewrite Hany. simpl. destruct en as [k v|k v]; simpl in *;
      injection Hst as -> ->; by rewrite insert_union_l.
Qed.

Lemma entry_sets_param item k v :
  (forall st0, parse json_loads repr item st0 = Ok (store (Param k v) st0)) ->
  sets_param json_loads repr item k v.
Proof. intros H. unfold sets_param. rewrite H. simpl. by rewrite insert_empty. Qed.

Lemma entry_sets_header item k v :
  (forall st0, parse json_loads repr item st0 = Ok (store (Header k v) st0)) ->
  sets_header json_loads repr item k v.
Proof. intros H. unfold sets_header. rewrite H. simpl. by rewrite insert_empty. Qed.

(** X1: [PATTERN] matches exactly the items made of a key (one or more
    characters, none of them [:] or [=]), one of the separators [=], [:=],
    [:] and a value of one or more characters; the three groups of a match
    are such a key, separator and value, and put together they are the
    item again: nothing is trimmed or lost. *)
Theorem X1_pattern_splits_items_losslessly s :
  (is_Some (Re.re_match PATTERN s) <->
   exists k sep v : string,
     s = k +:+ sep +:+ v /\ is_key k = true /\
     (sep = "=" \/ sep = ":=" \/ sep = ":") /\ v <> "") /\
  (forall gs, Re.re_match PATTERN s = Some gs ->
   exists k sep v : string,
     gs = [k; sep; v] /\ s = k +:+ sep +:+ v /\ is_key k = true /\
     (sep = "=" \/ sep = ":=" \/ sep = ":") /\ v <> "").
Proof.
  rewrite re_match_PATTERN. split; [split|].
  - intros [gs Hs].
    destruct (split_item_sound _ _ Hs) as (k & sep & v & _ & ? & ? & ? & ? & _).
    by exists k, sep, v.
  - intros (k & sep & v & -> & Hk & Hsep & Hv). by apply split_item_complete.
  - intros gs Hs.
    destruct (split_item_sound _ _ Hs) as (k & sep & v & ? & ? & ? & ? & ? & _).
    by exists k, sep, v.
Qed.

(** X2: [parse] fails in three ways and no other: with "Invalid item",
    when [PATTERN] does not match; with "Invalid JSON value", for an item
    [k:=v] on which [json.loads] raises [JSONDecodeError]; and with the
    exception that [json.loads] raised, unchanged, when it is another one.
    An item with [=] or [:] that matches never fails, and neither the
    default case of the match on the separator nor the unpacking of the
    groups is a source of failure. *)
Theorem X2_parse_fails_in_three_ways item st e :
  parse json_loads repr item st = Raise e ->
  (Re.re_match PATTERN item = None /\
   e = ValueError ("Invalid item: " +:+ repr item)) \/
  (exists k v, Re.re_match PATTERN item = Some [k; ":="; v] /\
     json_loads v = JSONDecodeError /\
     e = ValueError ("Invalid JSON value: " +:+ repr v)) \/
  (exists k v, Re.re_match PATTERN item = Some [k; ":="; v] /\
     json_loads v = LoadsRaises e).
Proof.
  rewrite parse_scan, re_match_PATTERN.
  destruct (split_item item) as [gs|] eqn:Hs; [|intros [= <-]; by left].
  destruct (split_item_sound _ _ Hs)
    as (k & sep & v & -> & _ & _ & _ & Hsep & _).
  destruct Hsep as [->|[->| ->]]; simpl; [done| |done].
  destruct (json_loads v) as [j| |e'] eqn:Hj; [done| |].
  - intros [= <-]. right. left. by exists k, v.
  - intros [= <-]. right. right. by exists k, v.
Qed.

(** X3: an accepted item changes one of the two dictionaries, by one
    assignment, and leaves the other as it was; the key assigned is a key
    of the grammar, and a header is never given an empty value. *)
Theorem X3_item_changes_one_dictionary item st st' :
  parse json_loads repr item st = Ok st' ->
  (exists k v, is_key k = true /\
     st' = Maps (<[k := v]> (params st)) (headers st)) \/
  (exists k v, is_key k = true /\ v <> "" /\
     st' = Maps (params st) (<[k := v]> (headers st))).
Proof.
  intros H. destruct (parse_ok_entry _ _ _ H) as (en & -> & _ & Hen).
  destruct en as [k v|k v].
  - left. by exists k, v.
  - right. exists k, v. by destruct Hen.
Qed.

(** X4: parsing two lists one after the other is parsing them separately
    and laying the dictionaries of the second over those of the first; an
    error in either list is the error of the whole, the first list first. *)
Theorem X4_parse_items_app items1 items2 :
  match parse_items json_loads repr items1,
        parse_items json_loads repr items2 with
  | Ok (ps1, hs1), Ok (ps2, hs2) =>
      parse_items json_loads repr (items1 ++ items2)
        = Ok (ps2 ∪ ps1, hs2 ∪ hs1)
  | Ok _, Raise e => parse_items json_loads repr (items1 ++ items2) = Raise e
  | Raise e, _ => parse_items json_loads repr (items1 ++ items2) = Raise e
  end.
Proof.
  unfold parse_items. rewrite parse_all_app.
  destruct (parse_all json_loads repr items1 (Maps ∅ ∅)) as [[ps1 hs1]|e1];
    simpl; [|by destruct (parse_all json_loads repr items2 (Maps ∅ ∅))].
  destruct (parse_all json_loads repr items2 (Maps ∅ ∅)) as [[ps2 hs2]|e2] eqn:H2;
    simpl.
  - by rewrite (parse_all_union _ ps1 hs1 _ _ H2).
  - by rewrite (parse_all_raise_any _ _ (Maps ps1 hs1) _ H2).
Qed.

Lemma parse_all_param_keys items st st' k :
  parse_all json_loads repr items st = Ok st' ->
  is_Some (params st' !! k) <->
  is_Some (params st !! k) \/
  exists item v, item ∈ items /\ sets_param json_loads repr item k v.
Proof.
  revert st. induction items as [|it items IH]; intros st; simpl.
  - intros [= <-]. split; [by left|].
    intros [H|(item & v & Hin & _)]; [done|by apply elem_of_nil in Hin].
  - destruct (parse json_loads repr it st) as [st1|] eqn:Hit; [|done]. simpl.
    intros Hrest. rewrite (IH _ Hrest).
    destruct (parse_ok_entry _ _ _ Hit) as (en & -> & Hany & _).
    split.
    + intros [Hk|(item & v & Hin & Hset)].
      * destruct en as [k' v'|k' v']; simpl in Hk; [|by left].
        apply lookup_insert_is_Some in Hk as [->|[_ Hk]]; [|by left].
        right. exists it, v'. split; [by left|by apply entry_sets_param].
      * right. exists item, v. split; [by right|done].
    + intros [Hk|(item & v & Hin & Hset)].
      * left. destruct en as [k' v'|k' v']; simpl; [|done].
        apply lookup_insert_is_Some.
        destruct (decide (k' = k)); [by left|by right].
      * apply elem_of_cons in Hin as [->|Hin].
        -- left. rewrite (sets_param_store _ _ _ _ _ st Hset) in Hit.
           injection Hit as Hst. rewrite <- Hst. simpl.
           rewrite lookup_insert_eq. by eexists.
        -- right. by exists item, v.
Qed.

Lemma parse_all_header_keys items st st' k :
  parse_all json_loads repr items st = Ok st' ->
  is_Some (headers st' !! k) <->
  is_Some (headers st !! k) \/
  exists item v, item ∈ items /\ sets_header json_loads repr item k v.
Proof.
  revert st. induction items as [|it items IH]; intros st; simpl.
  - intros [= <-]. split; [by left|].
    intros [H|(item & v & Hin & _)]; [done|by apply elem_of_nil in Hin].
  - destruct (parse json_loads repr it st) as [st1|] eqn:Hit; [|done]. simpl.
    intros Hrest. rewrite (IH _ Hrest).
    destruct (parse_ok_entry _ _ _ Hit) as (en & -> & Hany & _).
    split.
    + intros [Hk|(item & v & Hin & Hset)].
      * destruct en as [k' v'|k' v']; simpl in Hk; [by left|].
        apply lookup_insert_is_Some in Hk as [->|[_ Hk]]; [|by left].
        right. exists it, v'. split; [by left|by apply entry_sets_header].
      * right. exists item, v. split; [by right|done].
    + intros [Hk|(item & v & Hin & Hset)].
      * left. destruct en as [k' v'|k' v']; simpl; [done|].
        apply lookup_insert_is_Some.
        destruct (decide (k' = k)); [by left|by right].
      * apply elem_of_cons in Hin as [->|Hin].
        -- left. rewrite (sets_header_store _ _ _ _ _ st Hset) in Hit.
           injection Hit as Hst. rewrite <- Hst. simpl.
           rewrite lookup_insert_eq. by eexists.
        -- right. by exists item, v.
Qed.

(** X5: the keys of the dictionaries that [parse_items] returns are the
    keys that the items assign: a parameter is bound exactly when some
    item assigns it, and so is a header. *)
Theorem X5_keys_come_from_items items ps hs k :
  parse_items json_loads repr items = Ok (ps, hs) ->
  (is_Some (ps !! k) <->
   exists item v, item ∈ items /\ sets_param json_loads repr item k v) /\
  (is_Some (hs !! k) <->
   exists item v, item ∈ items /\ sets_header json_loads repr item k v).
Proof.
  unfold parse_items.
  destruct (parse_all json_loads repr items (Maps ∅ ∅)) as [st|] eqn:Hall;
    [|done]. simpl. intros [= <- <-]. split.
  - rewrite (parse_all_param_keys _ _ _ k Hall). simpl. split; [|by right].
    intros [H|H]; [|done]. by apply lookup_empty_is_Some in H.
  - rewrite (parse_all_header_keys _ _ _ k Hall). simpl. split; [|by right].
    intros [H|H]; [|done]. by apply lookup_empty_is_Some in H.
Qed.

Lemma size_insert_le {V} (m : gmap string V) k v :
  size (<[k := v]> m) <= S (size m).
Proof. rewrite map_size_insert. destruct (m !! k); simpl; lia. Qed.

Lemma parse_all_well_formed items st st' :
  parse_all json_loads repr items st = Ok st' ->
  (forall k v, params st !! k = Some v -> is_key k = true) ->
  (forall k v, headers st !! k = Some v -> is_key k = true /\ v <> "") ->
  (forall k v, params st' !! k = Some v -> is_key k = true) /\
  (forall k v, headers st' !! k = Some v -> is_key k = true /\ v <> "") /\
  size (params st') + size (headers st')
    <= size (params st) + size (headers st) + length items.
Proof.
  revert st. induction items as [|it items IH]; intros st; simpl.
  - intros [= <-] Hp Hh. split_and!; [done|done|lia].
  - destruct (parse json_loads repr it st) as [st1|] eqn:Hit; [|done]. simpl.
    intros Hrest Hp Hh.
    destruct (parse_ok_entry _ _ _ Hit) as (en & -> & _ & Hen).
    destruct (IH _ Hrest) as (Hp' & Hh' & Hsize).
    + intros k v. destruct en as [k' v'|k' v']; simpl; [|apply Hp].
      intros [[<- _]|[_ H]]%lookup_insert_Some; [done|by eapply Hp].
    + intros k v. destruct en as [k' v'|k' v']; simpl; [apply Hh|].
      intros [[<- <-]|[_ H]]%lookup_insert_Some; [done|by eapply Hh].
    + split_and!; [done|done|].
      destruct en as [k' v'|k' v']; simpl in Hsize.
      * pose proof (size_insert_le (params st) k' v'). lia.
      * pose proof (size_insert_le (headers st) k' v'). lia.
Qed.

(** X6: in the dictionaries that [parse_items] returns, every key has one
    or more characters and contains neither [:] nor [=], no header has an
    empty value, and there are no more entries than items. *)
Theorem X6_result_well_formed items ps hs :
  parse_items json_loads repr items = Ok (ps, hs) ->
  (forall k v, ps !! k = Some v -> is_key k = true) /\
  (forall k v, hs !! k = Some v -> is_key k = true /\ v <> "") /\
  size ps + size hs <= length items.
Proof.
  unfold parse_items.
  destruct (parse_all json_loads repr items (Maps ∅ ∅)) as [st|] eqn:Hall;
    [|done]. simpl. intros [= <- <-].
  destruct (parse_all_well_formed _ _ _ Hall) as (Hp & Hh & Hsize).
  - intros k v. simpl. by rewrite lookup_empty.
  - intros k v. simpl. by rewrite lookup_empty.
  - split_and!; [done|done|]. simpl in Hsize. by rewrite !map_size_empty in Hsize.
Qed.

Lemma store_commute ea eb st :
  match ea, eb with
  | Param k _, Param k' _ => k <> k'
  | Header k _, Header k' _ => k <> k'
  | _, _ => True
  end ->
  store ea (store eb st) = store eb (store ea st).
Proof.
  destruct ea as [k v|k v], eb as [k' v'|k' v']; simpl; intros H; try done;
    by rewrite insert_insert_ne.
Qed.

(** X7: two neighbouring items of an accepted list that do not assign the
    same parameter, nor the same header, can change places: the result of
    [parse_items] is the same. *)
Theorem X7_independent_items_commute items1 a b items2 r :
  (forall k v v', ~ (sets_param json_loads repr a k v /\
                     sets_param json_loads repr b k v')) ->
  (forall k v v', ~ (sets_header json_loads repr a k v /\
                     sets_header json_loads repr b k v')) ->
  parse_items json_loads repr (items1 ++ a :: b :: items2) = Ok r ->
  parse_items json_loads repr (items1 ++ b :: a :: items2) = Ok r.
Proof.
  intros Hps Hhs. unfold parse_items. rewrite !parse_all_app.
  destruct (parse_all json_loads repr items1 (Maps ∅ ∅)) as [st1|]; [|done].
  simpl.
  destruct (parse json_loads repr a st1) as [sa|] eqn:Ha; [|done]. simpl.
  destruct (parse json_loads repr b sa) as [sb|] eqn:Hb; [|done]. simpl.
  destruct (parse_ok_entry _ _ _ Ha) as (ea & -> & Hany_a & _).
  destruct (parse_ok_entry _ _ _ Hb) as (eb & -> & Hany_b & _).
  rewrite Hany_b. simpl. rewrite Hany_a. simpl.
  rewrite (store_commute ea eb); [done|].
  destruct ea as [k v|k v], eb as [k' v'|k' v']; try done.
  - intros ->. apply (Hps k' v v').
    split; by apply entry_sets_param.
  - intros ->. apply (Hhs k' v v').
    split; by apply entry_sets_header.
Qed.

End ParserMore.

(** ** More about the dispatcher *)

Section DispatcherMore.

Context {MessageSendParams Payload Unknown : Type}.
Variable w : env MessageSendParams Payload Unknown.
Variable json_loads : string -> loads_result.
Variable repr : string -> string.

Local Abbreviation ev := (event MessageSendParams Payload Unknown).

Lemma M_eta {A} (m : M ev A) : Run (trace m) (outcome m) = m.
Proof. by destruct m. Qed.

Lemma bind_trace {A B} (m : M ev A) (f : A -> M ev B) :
  trace (m ≫= f)
    = trace m ++ match outcome m with Ok a => trace (f a) | Raise _ => [] end.
Proof.
  unfold mbind, M_bind. destruct (outcome m); simpl; [done|].
  by rewrite app_nil_r.
Qed.

Lemma bind_outcome {A B} (m : M ev A) (f : A -> M ev B) :
  outcome (m ≫= f)
    = match outcome m with Ok a => outcome (f a) | Raise e => Raise e end.
Proof. unfold mbind, M_bind. by destruct (outcome m). Qed.

Lemma method_supported m :
  m ∈ METHODS -> existsb (String.eqb m) METHODS = true.
Proof.
  unfold METHODS.
  intros [->|[->|H]%elem_of_cons]%elem_of_cons; [done|done|].
  by apply elem_of_nil in H.
Qed.

Lemma show_request_run r verbose :
  show_request w r verbose = Run (request_echo w verbose r) (Ok tt).
Proof.
  unfold show_request, request_echo. destruct verbose; [|done].
  unfold print. by rewrite emit_bind, print_json_run.
Qed.

Lemma bind_Forall {A B} (P : ev -> Prop) (m : M ev A) (f : A -> M ev B) :
  Forall P (trace m) -> (forall a, Forall P (trace (f a))) ->
  Forall P (trace (m ≫= f)).
Proof.
  intros Hm Hf. rewrite bind_trace. apply Forall_app. split; [done|].
  destruct (outcome m); [apply Hf|constructor].
Qed.

Lemma async_for_output (body : root Payload Unknown -> M ev unit) cs fin :
  (forall c, Forall (fun e : ev => is_output_event e = true) (trace (body c))) ->
  Forall (fun e : ev => is_output_event e = true) (trace (async_for cs fin body)).
Proof.
  intros Hbody. induction cs as [|c cs IH]; cbn [async_for].
  - destruct fin; by constructor.
  - apply bind_Forall; [by repeat constructor|]. intros _.
    apply bind_Forall; [apply Hbody|]. intros _. apply IH.
Qed.

Lemma render_output (verbose : bool) c :
  Forall (fun e : ev => is_output_event e = true)
    (trace (if verbose then print_json w (OfResponse c)
            else result ← get_result w c; print_json w (OfPayload result))).
Proof.
  destruct verbose.
  - rewrite print_json_run. by repeat constructor.
  - apply bind_Forall; [destruct c; by constructor|].
    intros p. rewrite print_json_run. by repeat constructor.
Qed.

Lemma show_response_output r verbose :
  Forall (fun e : ev => is_output_event e = true)
    (trace (show_response w r verbose)).
Proof.
  unfold show_response. destruct verbose.
  - apply bind_Forall; [by repeat constructor|]. intros _.
    destruct r as [r|s]; cbn [is_async_iterator].
    + apply (render_output true).
    + apply async_for_output. intros c. apply (render_output true).
  - destruct r as [r|s]; cbn [is_async_iterator].
    + apply (render_output false).
    + apply async_for_output. intros c. apply (render_output false).
Qed.

Lemma sent_requests_output (t : list ev) :
  Forall (fun e : ev => is_output_event e = true) t -> sent_requests t = [].
Proof. induction 1 as [|e t He _ IH]; [done|]. by destruct e. Qed.

Lemma sent_requests_echo verbose r (t : list ev) :
  sent_requests (request_echo w verbose r ++ t) = sent_requests t.
Proof. by destruct verbose. Qed.

(** *** [invoke], case by case *)

Lemma invoke_no_client self verbose e :
  A2AClient w (url self) = Raise e ->
  invoke w self verbose
    = Run [EvOpenHttpClient (headers_or_None (client_headers self))] (Raise e).
Proof. intros Hc. unfold invoke. by rewrite Hc. Qed.

Lemma invoke_unsupported self verbose :
  A2AClient w (url self) = Ok tt ->
  method self ∉ METHODS ->
  invoke w self verbose
    = Run [EvOpenHttpClient (headers_or_None (client_headers self))]
          (Raise (ValueError ("Unsupported method: " +:+ method self))).
Proof.
  intros Hc [H1 H2]%method_not_supported. unfold invoke.
  by rewrite Hc, H1, H2.
Qed.

Lemma invoke_send self verbose :
  A2AClient w (url self) = Ok tt ->
  method self = "message/send" ->
  invoke w self verbose =
    match model_validate w (client_params self) with
    | Raise e =>
        Run [EvOpenHttpClient (headers_or_None (client_headers self))] (Raise e)
    | Ok p =>
        let req := SendMessageRequest (uuid4 w) p in
        match send_message w req with
        | Raise e =>
            Run (EvOpenHttpClient (headers_or_None (client_headers self))
                   :: request_echo w verbose req ++ [EvSendMessage req])
                (Raise e)
        | Ok r =>
            Run (EvOpenHttpClient (headers_or_None (client_headers self))
                   :: request_echo w verbose req
                   ++ EvSendMessage req
                   :: trace (show_response w (Single r) verbose))
                (outcome (show_response w (Single r) verbose))
        end
    end.
Proof.
  intros Hc Hm. unfold invoke. rewrite Hc, Hm.
  cbn [String.eqb Ascii.eqb Bool.eqb].
  rewrite emit_bind. unfold lift. rewrite bind_run.
  destruct (model_validate w (client_params self)) as [p|e]; [|done].
  rewrite bind_run. cbv zeta. rewrite show_request_run, bind_run, emit_bind.
  destruct (send_message w (SendMessageRequest (uuid4 w) p)) as [r|e].
  - rewrite bind_run. cbn [trace outcome app]. done.
  - done.
Qed.

Lemma invoke_stream self verbose :
  A2AClient w (url self) = Ok tt ->
  method self = "message/stream" ->
  invoke w self verbose =
    match model_validate w (client_params self) with
    | Raise e =>
        Run [EvOpenHttpClient (headers_or_None (client_headers self))] (Raise e)
    | Ok p =>
        let req := SendStreamingMessageRequest (uuid4 w) p in
        let response := AsyncIterator (send_message_streaming w req) in
        Run (EvOpenHttpClient (headers_or_None (client_headers self))
               :: request_echo w verbose req
               ++ EvSendMessageStreaming req
               :: trace (show_response w response verbose))
            (outcome (show_response w response verbose))
    end.
Proof.
  intros Hc Hm. unfold invoke. rewrite Hc, Hm.
  cbn [String.eqb Ascii.eqb Bool.eqb].
  rewrite emit_bind. unfold lift. rewrite bind_run.
  destruct (model_validate w (client_params self)) as [p|e]; [|done].
  rewrite bind_run. cbv zeta. rewrite show_request_run, bind_run, emit_bind.
  cbn [trace outcome app]. done.
Qed.

Lemma method_cases m :
  m = "message/send" \/ m = "message/stream" \/ m ∉ METHODS.
Proof.
  destruct (String.eqb m "message/send") eqn:H1;
    [left; by apply String.eqb_eq|].
  destruct (String.eqb m "message/stream") eqn:H2;
    [right; left; by apply String.eqb_eq|].
  right. right. unfold METHODS.
  apply String.eqb_neq in H1, H2.
  intros [->|[->|H]%elem_of_cons]%elem_of_cons; [done|done|].
  by apply elem_of_nil in H.
Qed.

(** *** The handling of a response *)

Lemma show_response_single r verbose :
  show_response w (Single r) verbose =
    Run ((if verbose then [EvPrint "Response:"] else [])
           ++ match envelope_text w verbose r with
              | Ok t => [EvPrint t]
              | Raise _ => []
              end)
        (match envelope_text w verbose r with
         | Ok _ => Ok tt
         | Raise e => Raise e
         end).
Proof.
  unfold show_response. destruct verbose; cbn [is_async_iterator].
  - unfold print. by rewrite emit_bind, print_json_run.
  - destruct r; unfold get_result, mret, M_ret, envelope_text;
      cbn [outcome raise]; by rewrite ?bind_run, ?print_json_run.
Qed.

Lemma async_for_app_arrivals (body : root Payload Unknown -> M ev unit)
    cs1 cs2 fin texts :
  Forall2 (fun c t => body c = Run [EvPrint t] (Ok tt)) cs1 texts ->
  async_for (cs1 ++ cs2) fin body =
    Run (arrivals cs1 texts ++ trace (async_for cs2 fin body))
        (outcome (async_for cs2 fin body)).
Proof.
  induction 1 as [|c t cs1 texts Hc _ IH].
  - symmetry. apply (M_eta (async_for cs2 fin body)).
  - cbn [app async_for]. rewrite Hc, IH. reflexivity.
Qed.

Lemma bodies_of_texts verbose (cs : list (root Payload Unknown)) texts :
  Forall2 (fun c t => envelope_text w verbose c = Ok t) cs texts ->
  Forall2 (fun c t =>
             (if verbose then print_json w (OfResponse c)
              else result ← get_result w c; print_json w (OfPayload result))
             = Run [EvPrint t] (Ok tt)) cs texts.
Proof.
  intros H. eapply Forall2_impl; [exact H|].
  intros c t Hc. by apply envelope_text_body.
Qed.

Lemma show_response_stream_prefix verbose s cs1 cs2 texts :
  chunks s = cs1 ++ cs2 ->
  Forall2 (fun c t => envelope_text w verbose c = Ok t) cs1 texts ->
  show_response w (AsyncIterator s) verbose =
    let body := fun c =>
      if verbose then print_json w (OfResponse c)
      else result ← get_result w c; print_json w (OfPayload result) in
    Run ((if verbose then [EvPrint "Response:"] else [])
           ++ arrivals cs1 texts ++ trace (async_for cs2 (failure s) body))
        (outcome (async_for cs2 (failure s) body)).
Proof.
  intros Hcs Htexts. apply bodies_of_texts in Htexts.
  unfold show_response. destruct verbose; cbn [is_async_iterator]; rewrite Hcs.
  - unfold print. rewrite emit_bind.
    by rewrite (async_for_app_arrivals _ _ _ _ _ Htexts).
  - by rewrite (async_for_app_arrivals _ _ _ _ _ Htexts).
Qed.

Lemma verbose_texts (cs : list (root Payload Unknown)) :
  Forall2 (fun c t => envelope_text w true c = Ok t) cs
    (map (fun c => json_text w (OfResponse c)) cs).
Proof. induction cs; by constructor. Qed.

(** X8: with a supported method and items that [parse_items] rejects,
    [main] does nothing else and ends: as a usage error, exit status 2 with
    the message of the exception, when that is a [ValueError] (as the two
    errors of [parse] are); with the exception itself when [json.loads]
    raised one that is not a [ValueError], which [main] does not catch. *)
Theorem X8_rejected_items_end_main args e :
  arg_method args ∈ METHODS ->
  parse_items json_loads repr (arg_items args) = Raise e ->
  main w json_loads repr args =
    Run [] (Raise (match e with
                   | ValueError msg => SystemExit 2 msg
                   | _ => e
                   end)).
Proof.
  intros Hm He. unfold main. rewrite (method_supported _ Hm). cbn [negb].
  rewrite He. by destruct e.
Qed.

(** X9: with a supported method and accepted items, [main] does what
    [invoke] does on the dictionaries of [parse_items]; its first action is
    to create the HTTP client, with the parsed headers, and with no headers
    at all exactly when no item assigns a header. *)
Theorem X9_main_runs_invoke args ps hs :
  arg_method args ∈ METHODS ->
  parse_items json_loads repr (arg_items args) = Ok (ps, hs) ->
  main w json_loads repr args
    = invoke w (MkClient (arg_url args) (arg_method args) ps hs)
        (arg_verbose args) /\
  (exists t, trace (main w json_loads repr args)
               = EvOpenHttpClient (headers_or_None hs) :: t) /\
  (headers_or_None hs = None <->
   forall item k v, item ∈ arg_items args ->
     ~ sets_header json_loads repr item k v).
Proof.
  intros Hm Hp.
  assert (main w json_loads repr args
          = invoke w (MkClient (arg_url args) (arg_method args) ps hs)
              (arg_verbose args)) as Hmain.
  { unfold main. rewrite (method_supported _ Hm). cbn [negb]. rewrite Hp.
    unfold mret, M_ret, lift. rewrite !bind_run. cbn [app]. apply M_eta. }
  split_and!; [done| |].
  - rewrite Hmain. unfold invoke. rewrite emit_bind. cbn [trace]. by eexists.
  - unfold parse_items in Hp.
    destruct (parse_all json_loads repr (arg_items args) (Maps ∅ ∅))
      as [st|] eqn:Hall; [|done]. injection Hp as <- <-.
    unfold headers_or_None. split.
    + destruct (decide (headers st = ∅)) as [Hempty|]; [|done].
      intros _ item k v Hin Hset.
      assert (is_Some (headers st !! k)) as Hk.
      { apply (parse_all_header_keys _ _ _ _ _ k Hall). right. by exists item, v. }
      rewrite Hempty in Hk. by apply lookup_empty_is_Some in Hk.
    + intros Hno. destruct (decide (headers st = ∅)) as [|Hne]; [done|].
      destruct Hne. apply map_empty. intros k.
      apply eq_None_not_Some. intros Hk.
      apply (parse_all_header_keys _ _ _ _ _ k Hall) in Hk
        as [Hk|(item & v & Hin & Hset)].
      * simpl in Hk. by apply lookup_empty_is_Some in Hk.
      * by apply (Hno item k v).
Qed.

(** X10: for a supported method, when the A2A client is built and the
    parameters do not validate, [invoke] ends with the exception of the
    validation right after creating the clients: nothing is printed, also
    in verbose mode, and no request is sent. *)
Theorem X10_invalid_params_abort_before_request self verbose e :
  A2AClient w (url self) = Ok tt ->
  method self ∈ METHODS ->
  model_validate w (client_params self) = Raise e ->
  invoke w self verbose
    = Run [EvOpenHttpClient (headers_or_None (client_headers self))] (Raise e).
Proof.
  intros Hc Hm Hv.
  destruct (method_cases (method self)) as [H|[H|H]]; [| |done].
  - by rewrite (invoke_send _ _ Hc H), Hv.
  - by rewrite (invoke_stream _ _ Hc H), Hv.
Qed.

(** X11: a call sends at most one request, whatever happens (there is no
    retry); the request, if any, carries the identifier of [uuid4], and the
    method is then a supported one. *)
Theorem X11_at_most_one_request self verbose :
  length (sent_requests (trace (invoke w self verbose))) <= 1 /\
  (forall r, r ∈ sent_requests (trace (invoke w self verbose)) ->
     request_id r = uuid4 w /\ method self ∈ METHODS).
Proof.
  destruct (A2AClient w (url self)) as [[]|e0] eqn:Hc;
    [|rewrite (invoke_no_client _ _ _ Hc);
      split; [simpl; lia|by intros r Hr%elem_of_nil]].
  destruct (method_cases (method self)) as [H|[H|H]].
  - rewrite (invoke_send _ _ Hc H).
    assert (method self ∈ METHODS) as Hin by (rewrite H; unfold METHODS; set_solver).
    destruct (model_validate w (client_params self)) as [p|e];
      [|split; [simpl; lia|by intros r Hr%elem_of_nil]].
    cbv zeta. destruct (send_message w _) as [r|e]; cbn [trace].
    + change (sent_requests (?a :: ?t)) with (sent_requests t).
      rewrite sent_requests_echo.
      change (sent_requests (EvSendMessage ?q :: ?t)) with (q :: sent_requests t).
      rewrite (sent_requests_output _ (show_response_output _ _)).
      split; [simpl; lia|]. by intros r' ->%list_elem_of_singleton.
    + change (sent_requests (?a :: ?t)) with (sent_requests t).
      rewrite sent_requests_echo.
      split; [simpl; lia|]. by intros r' ->%list_elem_of_singleton.
  - rewrite (invoke_stream _ _ Hc H).
    assert (method self ∈ METHODS) as Hin by (rewrite H; unfold METHODS; set_solver).
    destruct (model_validate w (client_params self)) as [p|e];
      [|split; [simpl; lia|by intros r Hr%elem_of_nil]].
    cbv zeta. cbn [trace].
    change (sent_requests (?a :: ?t)) with (sent_requests t).
    rewrite sent_requests_echo.
    change (sent_requests (EvSendMessageStreaming ?q :: ?t))
      with (q :: sent_requests t).
    rewrite (sent_requests_output _ (show_response_output _ _)).
    split; [simpl; lia|]. by intros r' ->%list_elem_of_singleton.
  - rewrite (invoke_unsupported _ _ Hc H).
    split; [simpl; lia|by intros r Hr%elem_of_nil].
Qed.

(** X12: once the A2A client is built and the parameters are validated,
    the actions of [invoke] are:
    the creation of the client, the echo of the request (its heading and its
    text in verbose mode, nothing otherwise), the request itself, of the
    kind of the method, and after it only arrivals of envelopes and
    printing. *)
Theorem X12_request_echoed_before_sending self verbose p :
  A2AClient w (url self) = Ok tt ->
  model_validate w (client_params self) = Ok p ->
  (method self = "message/send" ->
   let req := SendMessageRequest (uuid4 w) p in
   exists post,
     trace (invoke w self verbose)
       = EvOpenHttpClient (headers_or_None (client_headers self))
           :: request_echo w verbose req ++ EvSendMessage req :: post /\
     Forall (fun e : ev => is_output_event e = true) post) /\
  (method self = "message/stream" ->
   let req := SendStreamingMessageRequest (uuid4 w) p in
   exists post,
     trace (invoke w self verbose)
       = EvOpenHttpClient (headers_or_None (client_headers self))
           :: request_echo w verbose req ++ EvSendMessageStreaming req :: post /\
     Forall (fun e : ev => is_output_event e = true) post).
Proof.
  intros Hc Hv. split; intros Hm req.
  - rewrite (invoke_send _ _ Hc Hm), Hv. cbv zeta. fold req.
    destruct (send_message w req) as [r|e]; cbn [trace].
    + eexists. split; [reflexivity|apply show_response_output].
    + exists []. by split.
  - rewrite (invoke_stream _ _ Hc Hm), Hv. cbv zeta. fold req. cbn [trace].
    eexists. split; [reflexivity|apply show_response_output].
Qed.

(** X13: a single response is handled as a stream of that one envelope
    would be: the same texts are printed and the end is the same.  Without
    verbose an envelope of an unknown class prints nothing and raises
    "Unsupported A2A response"; with verbose every envelope is printed. *)
Theorem X13_single_response_like_stream_of_one r verbose :
  show_response w (Single r) verbose =
    Run ((if verbose then [EvPrint "Response:"] else [])
           ++ match envelope_text w verbose r with
              | Ok t => [EvPrint t]
              | Raise _ => []
              end)
        (match envelope_text w verbose r with
         | Ok _ => Ok tt
         | Raise e => Raise e
         end) /\
  printed (trace (show_response w (Single r) verbose))
    = printed (trace (show_response w (AsyncIterator (Stream [r] None)) verbose)) /\
  outcome (show_response w (Single r) verbose)
    = outcome (show_response w (AsyncIterator (Stream [r] None)) verbose).
Proof.
  split; [apply show_response_single|].
  rewrite show_response_single.
  destruct (envelope_text w verbose r) as [t|e] eqn:Ht.
  - rewrite (show_response_stream_prefix verbose (Stream [r] None) [r] [] [t]);
      [|done|by repeat constructor].
    cbn [trace outcome async_for failure]. by destruct verbose.
  - rewrite (show_response_stream_prefix verbose (Stream [r] None) [] [r] []);
      [|done|constructor].
    destruct verbose; [done|]. cbv zeta. cbn [async_for failure].
    destruct r; cbn in Ht; try discriminate Ht.
    injection Ht as <-. by split.
Qed.

(** X14: without verbose, a stream is handled up to its first envelope of
    an unknown class: the envelopes before it are printed as they arrive,
    that envelope is taken, and the call ends with "Unsupported A2A
    response"; what was printed stays, and no later envelope is taken. *)
Theorem X14_stream_stops_at_unknown_envelope s cs1 u cs2 texts :
  chunks s = cs1 ++ UnknownResponse u :: cs2 ->
  Forall2 (fun c t => envelope_text w false c = Ok t) cs1 texts ->
  show_response w (AsyncIterator s) false =
    Run (arrivals cs1 texts ++ [EvChunk (UnknownResponse u)])
        (Raise (ValueError ("Unsupported A2A response: "
                              +:+ root_dump_json w (UnknownResponse u)))).
Proof.
  intros Hcs Htexts.
  by rewrite (show_response_stream_prefix false s _ _ texts Hcs Htexts).
Qed.

(** X15: with verbose, every envelope of a stream is printed as it
    arrives, of whatever class, after the heading; the call ends as the
    stream ends. *)
Theorem X15_verbose_stream_prints_every_envelope s :
  show_response w (AsyncIterator s) true =
    Run (EvPrint "Response:"
           :: arrivals (chunks s)
                (map (fun c => json_text w (OfResponse c)) (chunks s)))
        (match failure s with None => Ok tt | Some e => Raise e end).
Proof.
  rewrite (show_response_stream_prefix true s (chunks s) []
             (map (fun c => json_text w (OfResponse c)) (chunks s)));
    [|by rewrite app_nil_r|apply verbose_texts].
  cbv zeta. cbn [async_for app]. destruct (failure s); cbn [trace outcome];
    by rewrite app_nil_r.
Qed.

(** X16: once the A2A client is built and the parameters are validated, a
    failure of the transport ends the call with the exception of the
    transport.  For "message/send" nothing is printed after the
    request; for "message/stream" the envelopes that arrived before the
    failure have been printed and stay printed. *)
Theorem X16_transport_failure_propagates self verbose p e :
  A2AClient w (url self) = Ok tt ->
  model_validate w (client_params self) = Ok p ->
  (method self = "message/send" ->
   send_message w (SendMessageRequest (uuid4 w) p) = Raise e ->
   invoke w self verbose =
     Run (EvOpenHttpClient (headers_or_None (client_headers self))
            :: request_echo w verbose (SendMessageRequest (uuid4 w) p)
            ++ [EvSendMessage (SendMessageRequest (uuid4 w) p)])
         (Raise e)) /\
  (method self = "message/stream" ->
   forall cs texts,
   send_message_streaming w (SendStreamingMessageRequest (uuid4 w) p)
     = Stream cs (Some e) ->
   Forall2 (fun c t => envelope_text w verbose c = Ok t) cs texts ->
   invoke w self verbose =
     Run (EvOpenHttpClient (headers_or_None (client_headers self))
            :: request_echo w verbose (SendStreamingMessageRequest (uuid4 w) p)
            ++ EvSendMessageStreaming (SendStreamingMessageRequest (uuid4 w) p)
            :: (if verbose then [EvPrint "Response:"] else [])
            ++ arrivals cs texts)
         (Raise e)).
Proof.
  intros Hc Hv. split.
  - intros Hm Hsend. rewrite (invoke_send _ _ Hc Hm), Hv. cbv zeta.
    by rewrite Hsend.
  - intros Hm cs texts Hstream Htexts.
    rewrite (invoke_stream _ _ Hc Hm), Hv. cbv zeta. rewrite Hstream.
    rewrite (show_response_stream_prefix verbose (Stream cs (Some e)) cs [] texts);
      [|by rewrite app_nil_r|done].
    cbv zeta. cbn [async_for failure trace outcome raise].
    by rewrite !app_nil_r.
Qed.

(** X17: when the A2A client is built, the parameters validate and the
    transport returns a response, "message/send" without verbose prints
    one text, that of the result or of the error of the response, and
    nothing else; a response of an unknown class prints nothing and ends
    the call with "Unsupported A2A response". *)
Theorem X17_unary_call_prints_one_result self p r :
  A2AClient w (url self) = Ok tt ->
  method self = "message/send" ->
  model_validate w (client_params self) = Ok p ->
  send_message w (SendMessageRequest (uuid4 w) p) = Ok r ->
  invoke w self false =
    match envelope_text w false r with
    | Ok t =>
        Run [EvOpenHttpClient (headers_or_None (client_headers self));
             EvSendMessage (SendMessageRequest (uuid4 w) p);
             EvPrint t] (Ok tt)
    | Raise e =>
        Run [EvOpenHttpClient (headers_or_None (client_headers self));
             EvSendMessage (SendMessageRequest (uuid4 w) p)] (Raise e)
    end /\
  printed (trace (invoke w self false))
    = match envelope_text w false r with Ok t => [t] | Raise _ => [] end.
Proof.
  intros Hc Hm Hv Hsend.
  rewrite (invoke_send _ _ Hc Hm), Hv. cbv zeta. rewrite Hsend.
  rewrite show_response_single.
  by destruct (envelope_text w false r).
Qed.

End DispatcherMore.

(** ** The further theorems at concrete inputs *)

Lemma X1_witness :
  exists k sep v : string,
    ["a"; "="; "b:c=d"] = [k; sep; v] /\ "a=b:c=d" = k +:+ sep +:+ v /\
    is_key k = true /\ (sep = "=" \/ sep = ":=" \/ sep = ":") /\ v <> "".
Proof.
  apply (proj2 (X1_pattern_splits_items_losslessly "a=b:c=d")).
  reflexivity.
Defined.

Lemma X2_witness :
  let e := ValueError ("Invalid JSON value: " +:+ repr_plain "oops") in
  (Re.re_match PATTERN "k:=oops" = None /\
   e = ValueError ("Invalid item: " +:+ repr_plain "k:=oops")) \/
  (exists k v, Re.re_match PATTERN "k:=oops" = Some [k; ":="; v] /\
     loads_scalar v = JSONDecodeError /\
     e = ValueError ("Invalid JSON value: " +:+ repr_plain v)) \/
  (exists k v, Re.re_match PATTERN "k:=oops" = Some [k; ":="; v] /\
     loads_scalar v = LoadsRaises e).
Proof.
  intros e.
  apply (X2_parse_fails_in_three_ways loads_scalar repr_plain "k:=oops"
           (Maps ∅ ∅)).
  reflexivity.
Defined.

Lemma X3_witness :
  (exists k v, is_key k = true /\
     Maps {["name" := JStr "Alice"]} ∅ = Maps (<[k := v]> ∅) ∅) \/
  (exists k v, is_key k = true /\ v <> "" /\
     Maps {["name" := JStr "Alice"]} ∅ = Maps ∅ (<[k := v]> ∅)).
Proof.
  apply (X3_item_changes_one_dictionary loads_scalar repr_plain
           "name=Alice" (Maps ∅ ∅)).
  reflexivity.
Defined.

Lemma X5_witness :
  (is_Some (({["a" := JStr "1"]} : gmap string json) !! "a") <->
   exists item v, item ∈ ["a=1"; "h:x"] /\
     sets_param loads_scalar repr_plain item "a" v) /\
  (is_Some (({["h" := "x"]} : gmap string string) !! "a") <->
   exists item v, item ∈ ["a=1"; "h:x"] /\
     sets_header loads_scalar repr_plain item "a" v).
Proof.
  apply (X5_keys_come_from_items loads_scalar repr_plain ["a=1"; "h:x"]).
  reflexivity.
Defined.

Lemma X6_witness :
  let ps : gmap string json := {["a" := JStr "1"]} in
  let hs : gmap string string := {["h" := "x"]} in
  (forall k v, ps !! k = Some v -> is_key k = true) /\
  (forall k v, hs !! k = Some v -> is_key k = true /\ v <> "") /\
  size ps + size hs <= length ["a=1"; "h:x"; "a=1"].
Proof.
  intros ps hs.
  apply (X6_result_well_formed loads_scalar repr_plain ["a=1"; "h:x"; "a=1"]).
  reflexivity.
Defined.

Lemma X7_witness :
  parse_items loads_scalar repr_plain ([] ++ ["h:x"; "a=1"])
    = Ok ({["a" := JStr "1"]}, {["h" := "x"]}).
Proof.
  apply (X7_independent_items_commute loads_scalar repr_plain [] "a=1" "h:x" []).
  - intros k v v' [_ H].
    apply Ok_inj, (f_equal params), (f_equal (.!! k)) in H.
    simpl in H. rewrite lookup_empty, lookup_singleton_eq in H. discriminate H.
  - intros k v v' [H _].
    apply Ok_inj, (f_equal headers), (f_equal (.!! k)) in H.
    simpl in H. rewrite lookup_empty, lookup_singleton_eq in H. discriminate H.
  - reflexivity.
Defined.

Lemma X8_witness :
  main demo_env loads_scalar repr_plain
    (MkNamespace "http://agent" "message/send" ["name=Alice"; "bad"] true)
    = Run [] (Raise (SystemExit 2 "Invalid item: 'bad'")).
Proof.
  apply (X8_rejected_items_end_main demo_env loads_scalar repr_plain
           (MkNamespace "http://agent" "message/send" ["name=Alice"; "bad"] true)
           (ValueError "Invalid item: 'bad'")).
  - unfold METHODS. apply elem_of_cons. by left.
  - reflexivity.
Defined.

Lemma X9_witness :
  let args := MkNamespace "http://agent" "message/stream" ["name=Alice"] false in
  main demo_env loads_scalar repr_plain args
    = invoke demo_env
        (MkClient "http://agent" "message/stream" {["name" := JStr "Alice"]} ∅)
        false /\
  (exists t, trace (main demo_env loads_scalar repr_plain args)
               = EvOpenHttpClient (headers_or_None ∅) :: t) /\
  (headers_or_None ∅ = None <->
   forall item k v, item ∈ ["name=Alice"] ->
     ~ sets_header loads_scalar repr_plain item k v).
Proof.
  intros args.
  apply (X9_main_runs_invoke demo_env loads_scalar repr_plain args).
  - unfold METHODS. apply elem_of_cons. right. apply elem_of_cons. by left.
  - reflexivity.
Defined.

Lemma X10_witness :
  invoke faulty_env (MkClient "http://agent" "message/send" ∅ ∅) true
    = Run [EvOpenHttpClient (headers_or_None ∅)]
          (Raise (ValueError "1 validation error for MessageSendParams")).
Proof.
  apply (X10_invalid_params_abort_before_request faulty_env
           (MkClient "http://agent" "message/send" ∅ ∅) true).
  - reflexivity.
  - unfold METHODS. apply elem_of_cons. by left.
  - reflexivity.
Defined.

Lemma X11_witness :
  let self := MkClient "http://agent" "message/stream" ∅ ∅ in
  request_id (SendStreamingMessageRequest (uuid4 demo_env) "params")
    = uuid4 demo_env /\
  method self ∈ METHODS.
Proof.
  intros self.
  apply (proj2 (X11_at_most_one_request demo_env self false)).
  apply elem_of_cons. by left.
Defined.

Lemma X12_witness :
  let self := MkClient "http://agent" "message/send" ∅ ∅ in
  let req := SendMessageRequest (uuid4 demo_env) "params" in
  exists post,
    trace (invoke demo_env self true)
      = EvOpenHttpClient (headers_or_None ∅)
          :: request_echo demo_env true req ++ EvSendMessage req :: post /\
    Forall (fun e : event string string string => is_output_event e = true) post.
Proof.
  intros self.
  apply (proj1 (X12_request_echoed_before_sending demo_env self true "params"
                  eq_refl eq_refl)).
  reflexivity.
Defined.

Lemma X14_witness :
  show_response demo_env
    (AsyncIterator (Stream [SendStreamingMessageSuccessResponse "one";
                            UnknownResponse "odd";
                            SendStreamingMessageSuccessResponse "three"] None))
    false
  = Run (arrivals [SendStreamingMessageSuccessResponse "one"] ["one"]
           ++ [EvChunk (UnknownResponse "odd")])
        (Raise (ValueError "Unsupported A2A response: unknown odd")).
Proof.
  apply (X14_stream_stops_at_unknown_envelope demo_env
           (Stream [SendStreamingMessageSuccessResponse "one";
                    UnknownResponse "odd";
                    SendStreamingMessageSuccessResponse "three"] None)
           [SendStreamingMessageSuccessResponse "one"] "odd"
           [SendStreamingMessageSuccessResponse "three"] ["one"]).
  - reflexivity.
  - repeat constructor.
Defined.

Lemma X16_witness :
  let ps : gmap string json := {["message" := JStr "hi"]} in
  invoke faulty_env (MkClient "http://agent" "message/send" ps ∅) false
    = Run [EvOpenHttpClient (headers_or_None ∅);
           EvSendMessage (SendMessageRequest (uuid4 faulty_env) "params")]
          (Raise (OtherError "A2AClientHTTPError" "connection refused")) /\
  invoke faulty_env (MkClient "http://agent" "message/stream" ps ∅) false
    = Run [EvOpenHttpClient (headers_or_None ∅);
           EvSendMessageStreaming
             (SendStreamingMessageRequest (uuid4 faulty_env) "params");
           EvChunk (SendStreamingMessageSuccessResponse "one");
           EvPrint "one"]
          (Raise (OtherError "A2AClientHTTPError" "connection lost")).
Proof.
  intros ps. split.
  - apply (proj1 (X16_transport_failure_propagates faulty_env
                    (MkClient "http://agent" "message/send" ps ∅) false "params"
                    (OtherError "A2AClientHTTPError" "connection refused")
                    eq_refl eq_refl)); reflexivity.
  - apply (proj2 (X16_transport_failure_propagates faulty_env
                    (MkClient "http://agent" "message/stream" ps ∅) false "params"
                    (OtherError "A2AClientHTTPError" "connection lost")
                    eq_refl eq_refl) eq_refl
                 [SendStreamingMessageSuccessResponse "one"] ["one"]).
    + reflexivity.
    + repeat constructor.
Defined.

Lemma X17_witness :
  let self := MkClient "http://agent" "message/send" ∅ ∅ in
  invoke demo_env self false
    = Run [EvOpenHttpClient (headers_or_None ∅);
           EvSendMessage (SendMessageRequest (uuid4 demo_env) "params");
           EvPrint "pong"] (Ok tt) /\
  printed (trace (invoke demo_env self false)) = ["pong"].
Proof.
  intros self.
  apply (X17_unary_call_prints_one_result demo_env self "params"
           (SendMessageSuccessResponse "pong")); reflexivity.
Defined.
